(** * Laser Tag (Free4All): the session loop of [laser_tag_app.c]

    A shallow embedding of the application file [laser_tag_app.c]: the
    RFID tag callback, the fire and hit procedures, the entry into the
    game state and the body of the main polling loop.

    The application struct is a record, and a C function that mutates
    [app] through its pointer is a function from the record to the
    record.  Calls that leave the application (notifications, the
    infrared transceiver, the RFID reader, delays, the view port) are
    appended to the ghost field [calls], so that their number and their
    order can be stated.  The [FURI_LOG_*] lines write to the debug log
    only and are left out; so is [laser_tag_view_update], which renders
    and does not feed back into the session.  The draw callback is
    embedded apart, as the list of the canvas calls it makes. *)

From Stdlib Require Import ZArith List Bool Lia.
From Stdlib Require Import Strings.Byte.
From Stdlib Require Strings.String.
Import ListNotations.
Import String.StringSyntax.
Local Delimit Scope string_scope with string.
Local Open Scope Z_scope.

(** ** Platform types *)

(** [LaserTagState] of [laser_tag_app.h], by the three values the
    application file compares [app->state] with. *)
Inductive LaserTagState : Set :=
| LaserTagStateSplashScreen
| LaserTagStateGame
| LaserTagStateGameOver.

(** [InputKey], [InputType] and [InputEvent] of the firmware's
    [input/input.h]. *)
Inductive InputKey : Set :=
| InputKeyUp | InputKeyDown | InputKeyRight | InputKeyLeft
| InputKeyOk | InputKeyBack.

Inductive InputType : Set :=
| InputTypePress | InputTypeRelease | InputTypeShort
| InputTypeLong | InputTypeRepeat.

Record InputEvent : Set := mkInputEvent { key : InputKey; type : InputType }.

Definition InputKey_eqb (a b : InputKey) : bool :=
  match a, b with
  | InputKeyUp, InputKeyUp | InputKeyDown, InputKeyDown
  | InputKeyRight, InputKeyRight | InputKeyLeft, InputKeyLeft
  | InputKeyOk, InputKeyOk | InputKeyBack, InputKeyBack => true
  | _, _ => false
  end.

(** [event.type == InputTypePress || event.type == InputTypeRepeat] *)
Definition press_or_repeat (t : InputType) : bool :=
  match t with
  | InputTypePress | InputTypeRepeat => true
  | _ => false
  end.

Inductive FuriStatus : Set :=
| FuriStatusOk
| FuriStatusErrorTimeout
| FuriStatusErrorResource.

(** The firmware's message queue, a bounded first-in first-out buffer of
    [capacity] slots. *)
Record FuriMessageQueue : Set := mkQueue {
  capacity : nat;
  messages : list InputEvent
}.

Definition furi_message_queue_alloc (msg_count : nat) : FuriMessageQueue :=
  mkQueue msg_count [].

(** [furi_message_queue_put(queue, msg, timeout)]: a free slot takes the
    message at the tail.  On a full queue a zero timeout returns at once
    with [FuriStatusErrorResource]; a positive timeout waits for a slot,
    and the model gives the outcome when none frees up.  In both cases
    the stored messages are left as they were. *)
Definition furi_message_queue_put (q : FuriMessageQueue) (msg : InputEvent)
    (timeout : Z) : FuriStatus * FuriMessageQueue :=
  if (length (messages q) <? capacity q)%nat
  then (FuriStatusOk, mkQueue (capacity q) (messages q ++ [msg]))
  else if timeout =? 0 then (FuriStatusErrorResource, q)
  else (FuriStatusErrorTimeout, q).

(** [furi_message_queue_get(queue, &event, timeout)]: the oldest message
    is written to the caller's [event]; on an empty queue the call times
    out and the caller's [event] keeps what it held. *)
Definition furi_message_queue_get (q : FuriMessageQueue) (event : InputEvent)
    : FuriStatus * InputEvent * FuriMessageQueue :=
  match messages q with
  | msg :: rest => (FuriStatusOk, msg, mkQueue (capacity q) rest)
  | [] => (FuriStatusErrorTimeout, event, q)
  end.

(** The notification sequences the application requests. *)
Inductive NotificationSequence : Set :=
| sequence_vibro_1
| sequence_short_beep
| sequence_blink_white_100
| sequence_error
| sequence_success.

Definition NotificationSequence_eq_dec (a b : NotificationSequence)
  : {a = b} + {a <> b}.
Proof. decide equality. Defined.

(** Calls that leave the application, in the order they are made. *)
Inductive Call : Set :=
| CallNotification (s : NotificationSequence)
| CallInfraredSend
| CallInfraredPause
| CallInfraredResume
| CallInfraredAlloc
| CallInfraredFree
| CallUpdateBoardStatus (controller_is_null : bool)
| CallReaderStart
| CallReaderStop
| CallDelayMs (ms : Z)
| CallViewPortUpdate.

Definition Call_eq_dec (a b : Call) : {a = b} + {a <> b}.
Proof.
  decide equality;
    [ apply NotificationSequence_eq_dec | apply Bool.bool_dec | apply Z.eq_dec ].
Defined.

(** ** Collaborators of the application file *)

(** Modelled from the spec: the [GameState] struct of [game_state.h],
    which is not among the sources.  Health and ammo counters and the
    elapsed time in seconds. *)
Record GameState : Set := mkGameState {
  health : Z;
  ammo : Z;
  game_time : Z
}.

(** [InfraredController] of [infrared_controller.h]; the worker, signal
    and notification handles carry no data of the session. *)
Record InfraredController : Set := mkInfraredController {
  worker_rx_active : bool;
  hit_received : bool;
  processing_signal : bool
}.

(** Modelled from the spec: the [LFRFIDReader] of [lfrfid_reader.h],
    which is not among the sources; whether the hardware scan runs. *)
Record LFRFIDReader : Set := mkReader { scanning : bool }.

Record LaserTagApp : Set := mkApp {
  event_queue : FuriMessageQueue;
  ir_controller : option InfraredController;   (* [None] is [NULL] *)
  game_state : GameState;
  state : LaserTagState;
  need_redraw : bool;
  reader : LFRFIDReader;
  calls : list Call                            (* ghost: calls made so far *)
}.

Definition with_event_queue (q : FuriMessageQueue) (app : LaserTagApp) :=
  mkApp q (ir_controller app) (game_state app) (state app)
        (need_redraw app) (reader app) (calls app).
Definition with_ir_controller (c : option InfraredController) (app : LaserTagApp) :=
  mkApp (event_queue app) c (game_state app) (state app)
        (need_redraw app) (reader app) (calls app).
Definition with_game_state (g : GameState) (app : LaserTagApp) :=
  mkApp (event_queue app) (ir_controller app) g (state app)
        (need_redraw app) (reader app) (calls app).
Definition with_state (s : LaserTagState) (app : LaserTagApp) :=
  mkApp (event_queue app) (ir_controller app) (game_state app) s
        (need_redraw app) (reader app) (calls app).
Definition with_need_redraw (b : bool) (app : LaserTagApp) :=
  mkApp (event_queue app) (ir_controller app) (game_state app) (state app)
        b (reader app) (calls app).
Definition with_reader (r : LFRFIDReader) (app : LaserTagApp) :=
  mkApp (event_queue app) (ir_controller app) (game_state app) (state app)
        (need_redraw app) r (calls app).
Definition emit (c : Call) (app : LaserTagApp) :=
  mkApp (event_queue app) (ir_controller app) (game_state app) (state app)
        (need_redraw app) (reader app) (calls app ++ [c]).

(** Conversions of C: a [uint8_t] read as an integer, and the value an
    integer takes when it is stored in a [uint16_t]. *)
Definition u8 (b : byte) : Z := Z.of_N (Byte.to_N b).
Definition u16 (x : Z) : Z := x mod 65536.

(** [data[i]] for the bytes handed to the tag callback. *)
Definition data_at (data : list byte) (i : nat) : Z := u8 (nth i data x00).

(** What reaches the application from other execution contexts while
    the main loop sleeps: a decoded tag, or the one-second timer. *)
Inductive Async : Set :=
| TagScanned (data : list byte) (length : Z)
| TimerFired.

(** What [update_infrared_board_status] finds on a poll. *)
Inductive BoardPoll : Set :=
| BoardUnchanged
| BoardSwitched (pending_hit_kept : bool).

(** What the surroundings decide during one loop iteration. *)
Record TickEnv : Set := mkTickEnv {
  board : BoardPoll;            (* external board attached or detached *)
  ir_alloc_ok : bool;           (* [infrared_controller_alloc] succeeds *)
  scan : list (list Async);     (* callbacks during each 100 ms delay *)
  late : list Async             (* callbacks between the last poll and the stop *)
}.

(** The locals of [laser_tag_app] that live across loop iterations. *)
Record Loop : Set := mkLoop {
  app : LaserTagApp;
  event : InputEvent;
  running : bool
}.

(** What can happen to the session: an iteration of the main loop, or a
    callback from another context between two iterations. *)
Inductive Stimulus : Set :=
| Tick (env : TickEnv)
| Input (input_event : InputEvent)
| Timer
| InfraredWorker (hit processing : bool).

Section LaserTag.

(** [INITIAL_AMMO] of [game_state.h], which is not among the sources:
    the constant is a parameter of the development. *)
Variable INITIAL_AMMO : Z.

(** ** Game state *)

(** Modelled from the spec: [game_state.c] is not among the sources.
    [reset] puts all fields at their initial values: health 100, ammo
    [INITIAL_AMMO], no time elapsed. *)
Definition game_state_reset (g : GameState) : GameState :=
  mkGameState 100 INITIAL_AMMO 0.

(** Modelled from the spec: [game_state_alloc] of the absent
    [game_state.c]; a game state is created with its initial values. *)
Definition game_state_alloc : GameState := mkGameState 100 INITIAL_AMMO 0.

(** Modelled from the spec: [decreaseHealth(n)] of the absent
    [game_state.c] subtracts [n] and clamps to 0. *)
Definition game_state_decrease_health (g : GameState) (amount : Z) : GameState :=
  mkGameState (Z.max 0 (health g - amount)) (ammo g) (game_time g).

(** Modelled from the spec: [decreaseAmmo(n)] of the absent
    [game_state.c] subtracts [n] and clamps to 0. *)
Definition game_state_decrease_ammo (g : GameState) (amount : Z) : GameState :=
  mkGameState (health g) (Z.max 0 (ammo g - amount)) (game_time g).

(** Modelled from the spec: [increaseAmmo(n)] of the absent
    [game_state.c] adds [n] and clamps to [INITIAL_AMMO]. *)
Definition game_state_increase_ammo (g : GameState) (amount : Z) : GameState :=
  mkGameState (health g) (Z.min INITIAL_AMMO (ammo g + amount)) (game_time g).

(** Modelled from the spec: [getAmmo()] of the absent [game_state.c]. *)
Definition game_state_get_ammo (g : GameState) : Z := ammo g.

(** Modelled from the spec: [updateTime(deltaSeconds)] of the absent
    [game_state.c] advances the elapsed time. *)
Definition game_state_update_time (g : GameState) (delta : Z) : GameState :=
  mkGameState (health g) (ammo g) (game_time g + delta).

(** Modelled from the spec: [isGameOver()] of the absent [game_state.c]
    is true iff [health == 0]. *)
Definition game_state_is_game_over (g : GameState) : bool := health g =? 0.

(** ** Infrared controller and tag reader *)

(** Modelled from the spec: [infrared_controller_alloc] of the absent
    [infrared_controller.c]; a fresh controller listens and has no hit
    pending. *)
Definition infrared_controller_alloc : InfraredController :=
  mkInfraredController true false false.

(** Modelled from the spec: [receive()] of the absent
    [infrared_controller.c] reports the pending hit and clears it. *)
Definition infrared_controller_receive (c : InfraredController)
    : bool * InfraredController :=
  (hit_received c,
   mkInfraredController (worker_rx_active c) false (processing_signal c)).

(** Modelled from the spec: [send()] of the absent
    [infrared_controller.c] transmits the pulse and keeps no record of
    it in the controller. *)
Definition infrared_controller_send (c : InfraredController) : InfraredController := c.

(** Modelled from the spec: [pause()] of the absent
    [infrared_controller.c] stops the receive listener. *)
Definition infrared_controller_pause (c : InfraredController) : InfraredController :=
  mkInfraredController false (hit_received c) (processing_signal c).

(** Modelled from the spec: [resume()] of the absent
    [infrared_controller.c] restarts the receive listener. *)
Definition infrared_controller_resume (c : InfraredController) : InfraredController :=
  mkInfraredController true (hit_received c) (processing_signal c).

(** Modelled from the spec: [updateBoardStatus()] of the absent
    [infrared_controller.c]; a switch of the transceiver path keeps the
    listener state, and keeps the pending hit or resets it to false. *)
Definition update_infrared_board_status (poll : BoardPoll)
    (c : InfraredController) : InfraredController :=
  match poll with
  | BoardUnchanged => c
  | BoardSwitched true => c
  | BoardSwitched false =>
      mkInfraredController (worker_rx_active c) false (processing_signal c)
  end.

(** Modelled from the spec: the receive worker of the absent
    [infrared_controller.c], seen from the session: while the listener
    runs, a decoded hit stays pending until it is consumed, and the
    worker says whether it is in the middle of a signal. *)
Definition infrared_worker (hit processing : bool) (c : InfraredController)
    : InfraredController :=
  if worker_rx_active c
  then mkInfraredController true (hit_received c || hit) processing
  else c.

(** A call on [app->ir_controller]: the call is recorded, and the
    controller, when there is one, changes as the callee says. *)
Definition on_ir_controller (what : Call)
    (f : InfraredController -> InfraredController) (app : LaserTagApp) : LaserTagApp :=
  emit what (with_ir_controller (option_map f (ir_controller app)) app).

(** Modelled from the spec: [start()] of the absent [lfrfid_reader.c]
    begins the hardware scan. *)
Definition lfrfid_reader_start (app : LaserTagApp) : LaserTagApp :=
  emit CallReaderStart (with_reader (mkReader true) app).

(** Modelled from the spec: [stop()] of the absent [lfrfid_reader.c]
    halts the hardware scan. *)
Definition lfrfid_reader_stop (app : LaserTagApp) : LaserTagApp :=
  emit CallReaderStop (with_reader (mkReader false) app).

(** [notification_message(app->notifications, &sequence)]: the request
    goes to the firmware's notification service. *)
Definition notification_message (s : NotificationSequence) (app : LaserTagApp)
    : LaserTagApp :=
  emit (CallNotification s) app.

(** ** Callbacks (lines 31-54 and 100-132) *)

(** [laser_tag_app_timer_callback], lines 31-46.  [app->view] is set by
    [laser_tag_app_alloc] and never cleared. *)
Definition laser_tag_app_timer_callback (app : LaserTagApp) : LaserTagApp :=
  let app :=
    match state app with
    | LaserTagStateGame =>
        with_game_state (game_state_update_time (game_state app) 1) app
    | _ => app
    end in
  with_need_redraw true app.

(** [laser_tag_app_input_callback], lines 48-54: the status returned by
    the put is dropped. *)
Definition laser_tag_app_input_callback (input_event : InputEvent)
    (app : LaserTagApp) : LaserTagApp :=
  let '(_, q) := furi_message_queue_put (event_queue app) input_event 0 in
  with_event_queue q app.

(** [tag_callback], lines 100-132. *)
Definition tag_callback (data : list byte) (length : Z) (app : LaserTagApp)
    : LaserTagApp :=
  if negb (length =? 5) then app
  else if negb (data_at data 0 =? 0x13) || negb (data_at data 1 =? 0x37) then app
  else if data_at data 3 =? 0xFD then
    let max_delta_ammo := u16 (data_at data 4) in
    let ammo := u16 (game_state_get_ammo (game_state app)) in
    let delta_ammo := u16 (INITIAL_AMMO - ammo) in
    let delta_ammo :=
      if delta_ammo >? max_delta_ammo then max_delta_ammo else delta_ammo in
    with_game_state (game_state_increase_ammo (game_state app) delta_ammo) app
  else app.

(** ** Allocation (lines 134-183) *)

(** [laser_tag_app_alloc] when every resource is obtained. *)
Definition laser_tag_app_alloc : LaserTagApp :=
  mkApp (furi_message_queue_alloc 8) None game_state_alloc
        LaserTagStateSplashScreen true (mkReader false) [].

(** ** Fire, hit and game entry (lines 210-277) *)

(** [laser_tag_app_fire], lines 210-234: the two early returns, then
    send, one round less, beep, blink. *)
Definition laser_tag_app_fire (app : LaserTagApp) : LaserTagApp :=
  match ir_controller app with
  | None => app
  | Some c =>
      if processing_signal c then app
      else
        let app := on_ir_controller CallInfraredSend infrared_controller_send app in
        let app := with_game_state (game_state_decrease_ammo (game_state app) 1) app in
        let app := notification_message sequence_short_beep app in
        let app := notification_message sequence_blink_white_100 app in
        with_need_redraw true app
  end.

(** [laser_tag_app_handle_hit], lines 236-252. *)
Definition laser_tag_app_handle_hit (app : LaserTagApp) : LaserTagApp :=
  let app := with_game_state (game_state_decrease_health (game_state app) 10) app in
  let app := notification_message sequence_vibro_1 app in
  if game_state_is_game_over (game_state app) then
    let app := notification_message sequence_error app in
    let app := with_state LaserTagStateGameOver app in
    with_need_redraw true app
  else app.

(** [laser_tag_app_enter_game_state], lines 254-277; the result says
    whether the controller could be allocated. *)
Definition laser_tag_app_enter_game_state (env : TickEnv) (app : LaserTagApp)
    : bool * LaserTagApp :=
  let app := with_state LaserTagStateGame app in
  let app := with_game_state (game_state_reset (game_state app)) app in
  let app :=
    match ir_controller app with
    | Some _ => with_ir_controller None (emit CallInfraredFree app)
    | None => app
    end in
  let app := emit CallInfraredAlloc app in
  if ir_alloc_ok env then
    let app := with_ir_controller (Some infrared_controller_alloc) app in
    (true, with_need_redraw true app)
  else (false, app).

(** ** The main loop (lines 279-409) *)

(** A callback of another context, as registered in
    [laser_tag_app_alloc] (lines 168 and 177). *)
Definition run_async (a : Async) (app : LaserTagApp) : LaserTagApp :=
  match a with
  | TagScanned data length => tag_callback data length app
  | TimerFired => laser_tag_app_timer_callback app
  end.

(** Callbacks in the order they arrive. *)
Definition run_asyncs (during : list Async) (app : LaserTagApp) : LaserTagApp :=
  fold_left (fun app a => run_async a app) during app.

(** [furi_delay_ms(ms)]: the loop sleeps, and the callbacks of other
    contexts that fall into the sleep run. *)
Definition furi_delay_ms (ms : Z) (during : list Async) (app : LaserTagApp)
    : LaserTagApp :=
  run_asyncs during (emit (CallDelayMs ms) app).

(** The [for] loop of lines 347-352 with [n] iterations left: sleep
    100 ms, leave as soon as the ammo differs from [ammo]. *)
Fixpoint scan_poll (n : nat) (ammo : Z) (scan : list (list Async))
    (app : LaserTagApp) : LaserTagApp :=
  match n with
  | O => app
  | S n' =>
      let app := furi_delay_ms 100 (hd [] scan) app in
      if negb (ammo =? game_state_get_ammo (game_state app)) then app
      else scan_poll n' ammo (tl scan) app
  end.

(** [case InputKeyUp], lines 341-361. *)
Definition scan_for_ammo (env : TickEnv) (app : LaserTagApp) : LaserTagApp :=
  let app := notification_message sequence_short_beep app in
  let ammo := u16 (game_state_get_ammo (game_state app)) in
  let app := on_ir_controller CallInfraredPause infrared_controller_pause app in
  let app := lfrfid_reader_start app in
  let app := scan_poll 30 ammo (scan env) app in
  let app := run_asyncs (late env) app in
  let app := lfrfid_reader_stop app in
  let app := on_ir_controller CallInfraredResume infrared_controller_resume app in
  let app :=
    if negb (ammo =? game_state_get_ammo (game_state app))
    then notification_message sequence_success app
    else notification_message sequence_error app in
  with_need_redraw true app.

(** The dispatch of a dequeued event, lines 300-367. *)
Definition handle_input (env : TickEnv) (event : InputEvent)
    (app : LaserTagApp) (running : bool) : LaserTagApp * bool :=
  if press_or_repeat (type event) then
    match state app with
    | LaserTagStateSplashScreen =>
        match key event with
        | InputKeyOk =>
            let '(entered, app) := laser_tag_app_enter_game_state env app in
            (app, if entered then running else false)
        | InputKeyBack => (app, false)
        | _ => (app, running)
        end
    | LaserTagStateGameOver =>
        if InputKey_eqb (key event) InputKeyOk then
          let app := with_game_state (game_state_reset (game_state app)) app in
          let app := with_state LaserTagStateSplashScreen app in
          (with_need_redraw true app, running)
        else (app, running)
    | LaserTagStateGame =>
        if InputKey_eqb (key event) InputKeyDown
           && (game_state_get_ammo (game_state app) =? 0) then
          let app :=
            with_game_state
              (game_state_increase_ammo (game_state app) INITIAL_AMMO) app in
          (with_need_redraw true app, running)
        else
          match key event with
          | InputKeyBack => (app, false)
          | InputKeyOk => (laser_tag_app_fire app, running)
          | InputKeyUp => (scan_for_ammo env app, running)
          | _ => (app, running)
          end
    end
  else (app, running).

(** The hit poll and the game-over checks, lines 374-394.  [event] is
    the local of [laser_tag_app]: what the last successful dequeue
    wrote, in this iteration or in an earlier one. *)
Definition poll_hit (event : InputEvent) (app : LaserTagApp) : LaserTagApp :=
  match state app, ir_controller app with
  | LaserTagStateGame, Some c =>
      let '(hit, c) := infrared_controller_receive c in
      let app := with_ir_controller (Some c) app in
      let app := if hit then laser_tag_app_handle_hit app else app in
      if game_state_is_game_over (game_state app) then
        let app := notification_message sequence_error app in
        let app := with_state LaserTagStateGameOver app in
        with_need_redraw true app
      else app
  | LaserTagStateGameOver, _ =>
      if InputKey_eqb (key event) InputKeyOk then
        let app := with_game_state (game_state_reset (game_state app)) app in
        let app := with_state LaserTagStateSplashScreen app in
        with_need_redraw true app
      else app
  | _, _ => app
  end.

(** Lines 396-400. *)
Definition redraw (app : LaserTagApp) : LaserTagApp :=
  if need_redraw app
  then with_need_redraw false (emit CallViewPortUpdate app)
  else app.

(** Line 295: the call is made with [app->ir_controller] whatever it
    is; the argument being [NULL] is recorded with the call. *)
Definition poll_board_status (env : TickEnv) (app : LaserTagApp) : LaserTagApp :=
  on_ir_controller
    (CallUpdateBoardStatus
       (match ir_controller app with None => true | Some _ => false end))
    (update_infrared_board_status (board env)) app.

(** The loop up to the hit poll, lines 295-372. *)
Definition before_poll (env : TickEnv) (l : Loop) : Loop :=
  let app := poll_board_status env (app l) in
  let '(status, event, q) := furi_message_queue_get (event_queue app) (event l) in
  let app := with_event_queue q app in
  match status with
  | FuriStatusOk =>
      let '(app, running) := handle_input env event app (running l) in
      mkLoop app event running
  | _ => mkLoop app event (running l)
  end.

(** One iteration of [while(running)], lines 293-403. *)
Definition loop_iteration (env : TickEnv) (l : Loop) : Loop :=
  let l := before_poll env l in
  let app := poll_hit (event l) (app l) in
  let app := redraw app in
  let app := furi_delay_ms 10 [] app in
  mkLoop app (event l) (running l).

(** The session under a stimulus.  Once [running] is false the loop has
    been left and no further iteration runs. *)
Definition step (s : Stimulus) (l : Loop) : Loop :=
  match s with
  | Tick env => if running l then loop_iteration env l else l
  | Input input_event =>
      mkLoop (laser_tag_app_input_callback input_event (app l)) (event l) (running l)
  | Timer => mkLoop (laser_tag_app_timer_callback (app l)) (event l) (running l)
  | InfraredWorker hit processing =>
      mkLoop (with_ir_controller
                (option_map (infrared_worker hit processing) (ir_controller (app l)))
                (app l))
             (event l) (running l)
  end.

(** The session under a sequence of stimuli. *)
Definition run (stimuli : list Stimulus) (l : Loop) : Loop :=
  fold_left (fun l s => step s l) stimuli l.

(** [laser_tag_app] on entry to the loop; [event] is declared without
    an initial value, so its content is a parameter. *)
Definition laser_tag_app_start (event0 : InputEvent) : Loop :=
  mkLoop laser_tag_app_alloc event0 true.

(** The sessions that [laser_tag_app] can be in. *)
Definition reachable (l : Loop) : Prop :=
  exists event0 stimuli, l = run stimuli (laser_tag_app_start event0).

(** ** Invariants and observations *)

(** The ranges of the data model. *)
Definition game_state_ok (g : GameState) : Prop :=
  0 <= health g <= 100 /\ 0 <= ammo g <= INITIAL_AMMO.

(** What holds of the session whenever the loop is about to iterate. *)
Definition session_ok (l : Loop) : Prop :=
  capacity (event_queue (app l)) = 8%nat
  /\ game_state_ok (game_state (app l))
  /\ (state (app l) <> LaserTagStateGameOver -> 0 < health (game_state (app l)))
  /\ (running l = true -> ir_controller (app l) = None ->
      state (app l) = LaserTagStateSplashScreen).

(** What a callback from another context leaves alone. *)
Definition async_frame (app app' : LaserTagApp) : Prop :=
  event_queue app' = event_queue app
  /\ ir_controller app' = ir_controller app
  /\ state app' = state app
  /\ reader app' = reader app
  /\ calls app' = calls app
  /\ health (game_state app') = health (game_state app).

(** The application after the first [j] sleeps of a scan window. *)
Fixpoint after_sleeps (j : nat) (scan : list (list Async)) (app : LaserTagApp)
    : LaserTagApp :=
  match j with
  | O => app
  | S j' => after_sleeps j' (tl scan) (furi_delay_ms 100 (hd [] scan) app)
  end.

(** How often the failure sequence has been requested. *)
Definition error_count (cs : list Call) : nat :=
  count_occ Call_eq_dec cs (CallNotification sequence_error).

(** ** Sample inputs *)

(** The ammo refill tag of the README, [13 37 00 FD 0A]. *)
Definition refill_tag : list byte := [x13; x37; x00; xfd; x0a].

Definition ok_press : InputEvent := mkInputEvent InputKeyOk InputTypePress.
Definition ok_release : InputEvent := mkInputEvent InputKeyOk InputTypeRelease.
Definition up_press : InputEvent := mkInputEvent InputKeyUp InputTypePress.
Definition down_press : InputEvent := mkInputEvent InputKeyDown InputTypePress.

(** An iteration in which nothing happens around the device. *)
Definition quiet : TickEnv := mkTickEnv BoardUnchanged true [] [].

(** A scan window in which the refill tag is read during the second sleep. *)
Definition tag_on_second_sleep : TickEnv :=
  mkTickEnv BoardUnchanged true [[]; [TagScanned refill_tag 5]] [].

(** A session in play. *)
Definition in_game (h a : Z) (hit processing : bool) : LaserTagApp :=
  mkApp (furi_message_queue_alloc 8)
        (Some (mkInfraredController true hit processing))
        (mkGameState h a 0) LaserTagStateGame false (mkReader false) [].

(** A session on the game-over screen. *)
Definition game_over_screen (h a : Z) : LaserTagApp :=
  mkApp (furi_message_queue_alloc 8)
        (Some (mkInfraredController true false false))
        (mkGameState h a 0) LaserTagStateGameOver false (mkReader false) [].

(** A full input queue. *)
Definition full_queue : FuriMessageQueue := mkQueue 8 (repeat ok_press 8).

(** A whole game: OK starts it and is released, ten hits arrive, and
    the player touches nothing afterwards. *)
Definition ten_hits : list Stimulus :=
  [Input ok_press; Tick quiet; Input ok_release; Tick quiet]
  ++ concat (repeat [InfraredWorker true false; Tick quiet] 10).

(** ** The draw callback (lines 56-98) *)

(** [Font] and [Align] of the firmware's [gui/canvas.h]. *)
Inductive Font : Set := FontPrimary | FontSecondary.

Inductive Align : Set :=
| AlignLeft | AlignRight | AlignTop | AlignBottom | AlignCenter.

(** The canvas calls of the draw callback, in the order they are made;
    [laser_tag_view_draw] is the game view drawing itself. *)
Inductive CanvasOp : Set :=
| canvas_clear
| canvas_set_font (font : Font)
| canvas_draw_str (x y : Z) (str : String.string)
| canvas_draw_str_aligned (x y : Z) (horizontal vertical : Align) (str : String.string)
| canvas_draw_frame (x y width height : Z)
| canvas_draw_line (x1 y1 x2 y2 : Z)
| canvas_draw_box (x y width height : Z)
| laser_tag_view_draw.

Definition CanvasOp_eq_dec (a b : CanvasOp) : {a = b} + {a <> b}.
Proof.
  decide equality;
    try apply Z.eq_dec; try apply String.string_dec; decide equality.
Defined.

(** [for(int i = from; i < bound; i += step) body]: the calls of the
    iterations in order, or [None] when [fuel] iterations do not reach
    the bound. *)
Fixpoint for_lt (fuel : nat) (i bound step : Z) (body : Z -> list CanvasOp)
    : option (list CanvasOp) :=
  match fuel with
  | O => None
  | S fuel' =>
      if i <? bound
      then option_map (fun rest => body i ++ rest)
                      (for_lt fuel' (i + step) bound step body)
      else Some []
  end.

(** [laser_tag_app_draw_callback], lines 56-98.  [app->view] is set by
    [laser_tag_app_alloc] and never cleared. *)
Definition laser_tag_app_draw_callback (fuel : nat) (app : LaserTagApp)
    : option (list CanvasOp) :=
  match state app with
  | LaserTagStateSplashScreen =>
      Some [canvas_clear;
            canvas_set_font FontPrimary;
            canvas_draw_str 5 20 "Laser Tag: Free4All!"%string;
            canvas_set_font FontSecondary;
            canvas_draw_str 5 40 "https://github.com/"%string;
            canvas_draw_str 5 50 "otomir23/"%string;
            canvas_draw_str 5 60 "Laser-Tag-Free4All"%string;
            canvas_draw_frame 0 0 128 64;
            canvas_draw_line 0 30 127 30]
  | LaserTagStateGameOver =>
      match
        for_lt fuel 0 128 8
          (fun x => [canvas_draw_box x 0 8 8; canvas_draw_box x 56 8 8]),
        for_lt fuel 8 56 8
          (fun y => [canvas_draw_box 0 y 8 8; canvas_draw_box 120 y 8 8])
      with
      | Some rows, Some columns =>
          Some ([canvas_clear;
                 canvas_set_font FontPrimary;
                 canvas_draw_str_aligned 64 25 AlignCenter AlignCenter
                   "GAME OVER!"%string]
                ++ rows ++ columns
                ++ [canvas_set_font FontSecondary;
                    canvas_draw_str_aligned 64 50 AlignCenter AlignCenter
                      "Press OK to Restart"%string])
      | _, _ => None
      end
  | LaserTagStateGame => Some [laser_tag_view_draw]
  end.

(** How often the 8x8 box at tile column [i], row [j] is drawn. *)
Definition tile_drawn (ops : list CanvasOp) (i j : Z) : nat :=
  count_occ CanvasOp_eq_dec ops (canvas_draw_box (8 * i) (8 * j) 8 8).

(** The tiles on the rim of the 16 by 8 grid of the 128x64 screen. *)
Definition on_rim (i j : Z) : bool :=
  (i =? 0) || (i =? 15) || (j =? 0) || (j =? 7).

(** A box that is one tile of the grid. *)
Definition is_tile (op : CanvasOp) : bool :=
  match op with
  | canvas_draw_box x y width height =>
      (width =? 8) && (height =? 8)
      && (x mod 8 =? 0) && (y mod 8 =? 0)
      && (0 <=? x) && (x + width <=? 128) && (0 <=? y) && (y + height <=? 64)
  | _ => true
  end.

(** ** Further observations *)

(** How often a call has been made. *)
Definition count_call (c : Call) (cs : list Call) : nat :=
  count_occ Call_eq_dec cs c.

(** The controllers held: one or none. *)
Definition live (app : LaserTagApp) : nat :=
  match ir_controller app with Some _ => 1%nat | None => 0%nat end.

(** The calls of a scan window with [k] sleeps that ends on [fx]. *)
Definition scan_calls (k : nat) (fx : NotificationSequence) : list Call :=
  [CallNotification sequence_short_beep; CallInfraredPause; CallReaderStart]
  ++ repeat (CallDelayMs 100) k
  ++ [CallReaderStop; CallInfraredResume; CallNotification fx].

(** The application as the dispatch of an iteration finds it: the board
    status polled and the oldest event taken from the queue. *)
Definition at_dispatch (env : TickEnv) (l : Loop) : LaserTagApp :=
  with_event_queue
    (mkQueue (capacity (event_queue (app l))) (tl (messages (event_queue (app l)))))
    (poll_board_status env (app l)).

(** The queue never holds more events than it has slots. *)
Definition queue_bounded (l : Loop) : Prop :=
  (length (messages (event_queue (app l))) <= capacity (event_queue (app l)))%nat.

(** The calls the dispatch of an event makes, by screen and key. *)
Definition dispatch_calls (input_event : InputEvent) (app : LaserTagApp)
    (new : list Call) : Prop :=
  if press_or_repeat (type input_event) then
    match state app, key input_event with
    | LaserTagStateSplashScreen, InputKeyOk =>
        new = match ir_controller app with
              | Some _ => [CallInfraredFree; CallInfraredAlloc]
              | None => [CallInfraredAlloc]
              end
    | LaserTagStateGame, InputKeyOk =>
        new = match ir_controller app with
              | Some c =>
                  if processing_signal c then []
                  else [CallInfraredSend;
                        CallNotification sequence_short_beep;
                        CallNotification sequence_blink_white_100]
              | None => []
              end
    | LaserTagStateGame, InputKeyUp =>
        exists (k : nat) (fx : NotificationSequence),
          (1 <= k <= 30)%nat
          /\ (fx = sequence_success \/ fx = sequence_error)
          /\ new = scan_calls k fx
    | _, _ => new = []
    end
  else new = [].

(** The calls the hit poll makes. *)
Definition poll_hit_calls (app : LaserTagApp) : list Call :=
  match state app, ir_controller app with
  | LaserTagStateGame, Some c =>
      if hit_received c then
        if Z.max 0 (health (game_state app) - 10) =? 0
        then [CallNotification sequence_vibro_1;
              CallNotification sequence_error;
              CallNotification sequence_error]
        else [CallNotification sequence_vibro_1]
      else if health (game_state app) =? 0
           then [CallNotification sequence_error]
           else []
  | _, _ => []
  end.

(** The calls of the dispatch in an iteration: those of the oldest
    queued event, none when nothing is queued. *)
Definition iteration_dispatch_calls (env : TickEnv) (l : Loop)
    (new : list Call) : Prop :=
  match messages (event_queue (app l)) with
  | [] => new = []
  | msg :: _ => dispatch_calls msg (at_dispatch env l) new
  end.

(** Whether the iteration about to run fires: it dequeues a press or
    repeat of OK in the game, with a controller that is not in the
    middle of a signal. *)
Definition shot_fired (l : Loop) : bool :=
  match messages (event_queue (app l)) with
  | [] => false
  | msg :: _ =>
      press_or_repeat (type msg)
      && InputKey_eqb (key msg) InputKeyOk
      && match state (app l), ir_controller (app l) with
         | LaserTagStateGame, Some c => negb (processing_signal c)
         | _, _ => false
         end
  end.

(** Whether the iteration about to run starts a game: it dequeues a
    press or repeat of OK on the splash screen. *)
Definition game_started (l : Loop) : bool :=
  match messages (event_queue (app l)) with
  | [] => false
  | msg :: _ =>
      press_or_repeat (type msg)
      && InputKey_eqb (key msg) InputKeyOk
      && match state (app l) with
         | LaserTagStateSplashScreen => true
         | _ => false
         end
  end.

(** The tag reader is not scanning and the controller, if there is one,
    listens. *)
Definition devices_idle (app : LaserTagApp) : Prop :=
  scanning (reader app) = false
  /\ (forall c, ir_controller app = Some c -> worker_rx_active c = true).

(** ** Proof steps shared by the invariant lemmas *)

(** Split a conjunction of the invariant into its parts. *)
Ltac session_split :=
  repeat match goal with |- _ /\ _ => split end.

(** Close one part of the invariant from the parts assumed. *)
Ltac session_close :=
  session_split; intros;
  try match goal with
    | H : ?a = true -> ?b = None -> _, Hr : ?a = true, Hn : ?b = None |- _ =>
        specialize (H Hr Hn)
    end;
  first [ assumption | lia | congruence | solve [auto] ].

(** ** Arithmetic of the C types *)

(** [ammo] is held in a [uint16_t] by the callers of the game state, so
    the constant fits one. *)
Hypothesis INITIAL_AMMO_u16 : 0 <= INITIAL_AMMO < 65536.

Lemma u8_range (b : byte) : 0 <= u8 b < 256.
Proof.
  unfold u8. pose proof (Byte.to_N_bounded b). lia.
Qed.

Lemma u16_small (x : Z) : 0 <= x < 65536 -> u16 x = x.
Proof. intros Hx. unfold u16. apply Z.mod_small. exact Hx. Qed.

Lemma u16_range (x : Z) : 0 <= u16 x < 65536.
Proof. unfold u16. apply Z.mod_pos_bound. lia. Qed.

(** ** Record bookkeeping *)

Lemma with_game_state_same (app : LaserTagApp) :
  with_game_state (game_state app) app = app.
Proof. destruct app; reflexivity. Qed.

Lemma with_event_queue_same (app : LaserTagApp) :
  with_event_queue (event_queue app) app = app.
Proof. destruct app; reflexivity. Qed.

Lemma async_frame_refl (app : LaserTagApp) : async_frame app app.
Proof. unfold async_frame; repeat split. Qed.

Lemma async_frame_trans (a b c : LaserTagApp) :
  async_frame a b -> async_frame b c -> async_frame a c.
Proof.
  unfold async_frame.
  intros (Q1 & I1 & S1 & R1 & C1 & H1) (Q2 & I2 & S2 & R2 & C2 & H2).
  repeat split; congruence.
Qed.

(** ** The tag callback *)

(** On a well-formed refill tag the callback comes down to one
    saturating increase. *)
Lemma refill_payload_unfolds (b2 b4 : byte) (app : LaserTagApp) :
  tag_callback [x13; x37; b2; xfd; b4] 5 app =
  with_game_state
    (game_state_increase_ammo (game_state app)
       (let delta_ammo := u16 (INITIAL_AMMO - u16 (ammo (game_state app))) in
        if delta_ammo >? u16 (u8 b4) then u16 (u8 b4) else delta_ammo))
    app.
Proof. reflexivity. Qed.

(** The clamped delta, when the ammo is in its range. *)
Lemma refill_delta (b4 : byte) (a : Z) :
  0 <= a <= INITIAL_AMMO ->
  (let delta_ammo := u16 (INITIAL_AMMO - u16 a) in
   if delta_ammo >? u16 (u8 b4) then u16 (u8 b4) else delta_ammo)
  = Z.min (u8 b4) (INITIAL_AMMO - a).
Proof.
  intros Ha. pose proof (u8_range b4) as Hb. cbv zeta.
  rewrite (u16_small a) by lia.
  rewrite (u16_small (INITIAL_AMMO - a)) by lia.
  rewrite (u16_small (u8 b4)) by lia.
  destruct (Z.gtb_spec (INITIAL_AMMO - a) (u8 b4)); lia.
Qed.

(** C1: a 5-byte payload [13 37 xx FD amount] makes the tag callback
    raise the ammo by [min(amount, INITIAL_AMMO - ammo)] and touch
    nothing else; with ammo [INITIAL_AMMO - 3] and amount [0x0A] the
    ammo becomes [INITIAL_AMMO], and with ammo [INITIAL_AMMO] it stays. *)
Theorem tag_callback_refill (b2 b4 : byte) (app : LaserTagApp) :
  0 <= ammo (game_state app) <= INITIAL_AMMO ->
  tag_callback [x13; x37; b2; xfd; b4] 5 app =
    with_game_state
      (mkGameState (health (game_state app))
         (ammo (game_state app)
          + Z.min (u8 b4) (INITIAL_AMMO - ammo (game_state app)))
         (game_time (game_state app)))
      app
  /\ (ammo (game_state app) = INITIAL_AMMO - 3 -> b4 = x0a ->
      ammo (game_state (tag_callback [x13; x37; b2; xfd; b4] 5 app)) = INITIAL_AMMO)
  /\ (ammo (game_state app) = INITIAL_AMMO ->
      tag_callback [x13; x37; b2; xfd; b4] 5 app = app).
Proof.
  intros Ha. pose proof (u8_range b4) as Hb.
  assert (E : tag_callback [x13; x37; b2; xfd; b4] 5 app =
              with_game_state
                (mkGameState (health (game_state app))
                   (ammo (game_state app)
                    + Z.min (u8 b4) (INITIAL_AMMO - ammo (game_state app)))
                   (game_time (game_state app)))
                app).
  { rewrite refill_payload_unfolds, refill_delta by exact Ha.
    unfold game_state_increase_ammo. f_equal. f_equal. lia. }
  split; [exact E|]. split.
  - intros H3 ->. rewrite E. simpl. change (u8 x0a) with 10. lia.
  - intros Hfull. rewrite E.
    replace (ammo (game_state app)
             + Z.min (u8 b4) (INITIAL_AMMO - ammo (game_state app)))
      with (ammo (game_state app)) by lia.
    destruct app as [q c [h a t] s n r cs]; reflexivity.
Qed.

(** C2: a payload that is not 5 bytes long, or does not begin with
    [13 37], or whose action code is not [FD], leaves the application,
    and with it ammo, health and elapsed time, as it was. *)
Theorem tag_callback_rejects (data : list byte) (length : Z) (app : LaserTagApp) :
  length <> 5 \/ data_at data 0 <> 0x13 \/ data_at data 1 <> 0x37
  \/ data_at data 3 <> 0xFD ->
  tag_callback data length app = app.
Proof.
  intros H. unfold tag_callback.
  destruct (Z.eqb_spec length 5) as [E|_]; [|reflexivity].
  destruct (Z.eqb_spec (data_at data 0) 0x13) as [E0|_]; [|reflexivity].
  destruct (Z.eqb_spec (data_at data 1) 0x37) as [E1|_]; [|reflexivity].
  destruct (Z.eqb_spec (data_at data 3) 0xFD) as [E3|_]; [|reflexivity].
  exfalso. destruct H as [H|[H|[H|H]]]; contradiction.
Qed.

(** ** Callbacks from other contexts *)

Lemma tag_callback_frame (data : list byte) (length : Z) (app : LaserTagApp) :
  async_frame app (tag_callback data length app).
Proof.
  unfold tag_callback.
  destruct (negb (length =? 5)); [apply async_frame_refl|].
  destruct (negb (data_at data 0 =? 0x13) || negb (data_at data 1 =? 0x37));
    [apply async_frame_refl|].
  destruct (data_at data 3 =? 0xFD); [|apply async_frame_refl].
  unfold async_frame; repeat split.
Qed.

Lemma timer_callback_frame (app : LaserTagApp) :
  async_frame app (laser_tag_app_timer_callback app).
Proof.
  unfold laser_tag_app_timer_callback, async_frame.
  destruct (state app) eqn:E; simpl; rewrite ?E; repeat split.
Qed.

Lemma run_async_frame (a : Async) (app : LaserTagApp) :
  async_frame app (run_async a app).
Proof.
  destruct a; [apply tag_callback_frame | apply timer_callback_frame].
Qed.

Lemma run_asyncs_frame (during : list Async) (app : LaserTagApp) :
  async_frame app (run_asyncs during app).
Proof.
  unfold run_asyncs. revert app.
  induction during as [|a during IH]; intros app; simpl.
  - apply async_frame_refl.
  - eapply async_frame_trans; [apply run_async_frame | apply IH].
Qed.

(** The ammo range survives the tag callback: the increase is at least
    zero and clamps at [INITIAL_AMMO]. *)
Lemma tag_callback_ok (data : list byte) (length : Z) (app : LaserTagApp) :
  game_state_ok (game_state app) ->
  game_state_ok (game_state (tag_callback data length app)).
Proof.
  intros Hok. unfold tag_callback.
  destruct (negb (length =? 5)); [exact Hok|].
  destruct (negb (data_at data 0 =? 0x13) || negb (data_at data 1 =? 0x37));
    [exact Hok|].
  destruct (data_at data 3 =? 0xFD); [|exact Hok].
  destruct Hok as [Hh Ha]. unfold game_state_ok; simpl. split; [exact Hh|].
  pose proof (u16_range (data_at data 4)) as H4.
  pose proof (u16_range
                (INITIAL_AMMO - u16 (game_state_get_ammo (game_state app)))) as Hd.
  destruct (_ >? _); lia.
Qed.

Lemma timer_callback_ok (app : LaserTagApp) :
  game_state_ok (game_state app) ->
  game_state_ok (game_state (laser_tag_app_timer_callback app)).
Proof.
  intros Hok. unfold laser_tag_app_timer_callback.
  destruct (state app); simpl; exact Hok.
Qed.

Lemma run_asyncs_ok (during : list Async) (app : LaserTagApp) :
  game_state_ok (game_state app) ->
  game_state_ok (game_state (run_asyncs during app)).
Proof.
  unfold run_asyncs. revert app.
  induction during as [|a during IH]; intros app Hok; simpl; [exact Hok|].
  apply IH. destruct a; [apply tag_callback_ok | apply timer_callback_ok]; exact Hok.
Qed.

(** A callback reads the game state and the screen the session is on,
    and nothing else of the application. *)
Lemma run_async_same_play (a : Async) (app1 app2 : LaserTagApp) :
  game_state app1 = game_state app2 -> state app1 = state app2 ->
  game_state (run_async a app1) = game_state (run_async a app2)
  /\ state (run_async a app1) = state (run_async a app2).
Proof.
  intros Hg Hs. destruct a as [data length|]; simpl.
  - unfold tag_callback. rewrite Hg.
    destruct (negb (length =? 5)); [split; assumption|].
    destruct (negb (data_at data 0 =? 0x13) || negb (data_at data 1 =? 0x37));
      [split; assumption|].
    destruct (data_at data 3 =? 0xFD); simpl; split; congruence.
  - unfold laser_tag_app_timer_callback. rewrite Hs.
    destruct (state app2) eqn:E; simpl; rewrite ?Hg; split; congruence.
Qed.

Lemma run_asyncs_same_play (during : list Async) (app1 app2 : LaserTagApp) :
  game_state app1 = game_state app2 -> state app1 = state app2 ->
  game_state (run_asyncs during app1) = game_state (run_asyncs during app2)
  /\ state (run_asyncs during app1) = state (run_asyncs during app2).
Proof.
  unfold run_asyncs. revert app1 app2.
  induction during as [|a during IH]; intros app1 app2 Hg Hs; simpl; [auto|].
  destruct (run_async_same_play a app1 app2 Hg Hs) as [Hg' Hs'].
  apply IH; assumption.
Qed.

(** ** The scan window *)

Lemma furi_delay_ms_frame (ms : Z) (during : list Async) (app : LaserTagApp) :
  async_frame (emit (CallDelayMs ms) app) (furi_delay_ms ms during app).
Proof. unfold furi_delay_ms. apply run_asyncs_frame. Qed.

Lemma after_sleeps_calls (j : nat) (scan : list (list Async)) (app : LaserTagApp) :
  calls (after_sleeps j scan app) = calls app ++ repeat (CallDelayMs 100) j.
Proof.
  revert scan app. induction j as [|j IH]; intros scan app; simpl.
  - symmetry. apply app_nil_r.
  - rewrite IH.
    destruct (furi_delay_ms_frame 100 (hd [] scan) app) as (_ & _ & _ & _ & Hc & _).
    rewrite Hc. simpl. rewrite <- app_assoc. reflexivity.
Qed.

Lemma after_sleeps_frame (j : nat) (scan : list (list Async)) (app : LaserTagApp) :
  event_queue (after_sleeps j scan app) = event_queue app
  /\ ir_controller (after_sleeps j scan app) = ir_controller app
  /\ state (after_sleeps j scan app) = state app
  /\ reader (after_sleeps j scan app) = reader app
  /\ health (game_state (after_sleeps j scan app)) = health (game_state app).
Proof.
  revert scan app. induction j as [|j IH]; intros scan app; simpl.
  - repeat split.
  - destruct (IH (tl scan) (furi_delay_ms 100 (hd [] scan) app))
      as (Q & I & S & R & H).
    destruct (furi_delay_ms_frame 100 (hd [] scan) app)
      as (Q' & I' & S' & R' & _ & H').
    simpl in *. repeat split; congruence.
Qed.

Lemma after_sleeps_same_play (j : nat) (scan : list (list Async))
    (app1 app2 : LaserTagApp) :
  game_state app1 = game_state app2 -> state app1 = state app2 ->
  game_state (after_sleeps j scan app1) = game_state (after_sleeps j scan app2)
  /\ state (after_sleeps j scan app1) = state (after_sleeps j scan app2).
Proof.
  revert scan app1 app2.
  induction j as [|j IH]; intros scan app1 app2 Hg Hs; simpl; [auto|].
  apply IH; unfold furi_delay_ms;
    apply run_asyncs_same_play; simpl; assumption.
Qed.

Lemma after_sleeps_ok (j : nat) (scan : list (list Async)) (app : LaserTagApp) :
  game_state_ok (game_state app) ->
  game_state_ok (game_state (after_sleeps j scan app)).
Proof.
  revert scan app. induction j as [|j IH]; intros scan app Hok; simpl; [exact Hok|].
  apply IH. unfold furi_delay_ms. apply run_asyncs_ok. exact Hok.
Qed.

(** The polling loop sleeps between 1 and [n] times and leaves after
    the first sleep at whose end the ammo differs. *)
Lemma scan_poll_spec (n : nat) (ammo0 : Z) (scan : list (list Async))
    (app : LaserTagApp) :
  (0 < n)%nat ->
  exists k : nat,
    (1 <= k <= n)%nat
    /\ scan_poll n ammo0 scan app = after_sleeps k scan app
    /\ (forall j, (1 <= j < k)%nat ->
        ammo (game_state (after_sleeps j scan app)) = ammo0)
    /\ ((k < n)%nat -> ammo (game_state (after_sleeps k scan app)) <> ammo0).
Proof.
  revert scan app. induction n as [|n IH]; intros scan app Hn; [lia|].
  simpl scan_poll.
  destruct (Z.eqb_spec ammo0
              (game_state_get_ammo
                 (game_state (furi_delay_ms 100 (hd [] scan) app)))) as [E|NE];
    simpl negb; cbv iota.
  - destruct n as [|n].
    + exists 1%nat. split; [lia|]. split; [reflexivity|]. split; intros; lia.
    + destruct (IH (tl scan) (furi_delay_ms 100 (hd [] scan) app))
        as (k & Hk & Hrun & Hbefore & Hat); [lia|].
      exists (S k). split; [lia|]. split; [exact Hrun|]. split.
      * intros [|[|j]] Hj; [lia| |].
        -- simpl. symmetry. exact E.
        -- change (after_sleeps (S (S j)) scan app)
             with (after_sleeps (S j) (tl scan)
                     (furi_delay_ms 100 (hd [] scan) app)).
           apply Hbefore. lia.
      * intros Hlt. apply Hat. lia.
  - exists 1%nat. split; [lia|]. split; [reflexivity|]. split.
    + intros j Hj. lia.
    + intros _. simpl. intros E. apply NE. symmetry. exact E.
Qed.

(** Within its range the ammo never goes down in a scan window: the
    tag callback adds, and the timer leaves the ammo alone. *)
Lemma run_async_ammo (a : Async) (app : LaserTagApp) :
  0 <= ammo (game_state app) <= INITIAL_AMMO ->
  ammo (game_state app) <= ammo (game_state (run_async a app)) <= INITIAL_AMMO.
Proof.
  intros Ha. destruct a as [data length|]; simpl.
  - unfold tag_callback.
    destruct (negb (length =? 5)); [lia|].
    destruct (negb (data_at data 0 =? 0x13) || negb (data_at data 1 =? 0x37));
      [lia|].
    destruct (data_at data 3 =? 0xFD); [|lia].
    simpl.
    pose proof (u16_range (data_at data 4)) as H4.
    pose proof (u16_range
                  (INITIAL_AMMO - u16 (game_state_get_ammo (game_state app)))) as Hd.
    destruct (_ >? _); lia.
  - unfold laser_tag_app_timer_callback.
    destruct (state app); simpl; lia.
Qed.

Lemma run_asyncs_ammo (during : list Async) (app : LaserTagApp) :
  0 <= ammo (game_state app) <= INITIAL_AMMO ->
  ammo (game_state app) <= ammo (game_state (run_asyncs during app)) <= INITIAL_AMMO.
Proof.
  unfold run_asyncs. revert app.
  induction during as [|a during IH]; intros app Ha; simpl; [lia|].
  pose proof (run_async_ammo a app Ha) as H1.
  pose proof (IH (run_async a app) ltac:(lia)) as H2. lia.
Qed.

Lemma after_sleeps_ammo (j k : nat) (scan : list (list Async)) (app : LaserTagApp) :
  (j <= k)%nat ->
  0 <= ammo (game_state app) <= INITIAL_AMMO ->
  ammo (game_state app) <= ammo (game_state (after_sleeps j scan app))
  /\ ammo (game_state (after_sleeps j scan app))
     <= ammo (game_state (after_sleeps k scan app)) <= INITIAL_AMMO.
Proof.
  revert j scan app. induction k as [|k IH]; intros j scan app Hjk Ha.
  - assert (j = 0)%nat as -> by lia. simpl. lia.
  - assert (Hsleep : ammo (game_state app)
                     <= ammo (game_state (furi_delay_ms 100 (hd [] scan) app))
                     <= INITIAL_AMMO).
    { unfold furi_delay_ms. apply (run_asyncs_ammo _ (emit (CallDelayMs 100) app)).
      exact Ha. }
    destruct j as [|j].
    + destruct (IH 0%nat (tl scan) (furi_delay_ms 100 (hd [] scan) app))
        as (_ & H2); [lia | lia |].
      simpl in *. lia.
    + destruct (IH j (tl scan) (furi_delay_ms 100 (hd [] scan) app))
        as (H1 & H2); [lia | lia |].
      simpl. lia.
Qed.

(** C8: an Up press in the game state pauses infrared reception, starts
    the tag reader, sleeps 100 ms between 1 and 30 times and stops
    sleeping after the first sleep at whose end the ammo differs from
    its value at the start, then stops the reader and resumes
    reception; it requests the success sequence iff the ammo differs at
    the end of the window and the failure sequence otherwise, in which
    case the ammo was the same after every sleep; on return the reader
    is not scanning and the receive listener runs. *)
Theorem up_press_scan_window (env : TickEnv) (input_event : InputEvent)
    (app : LaserTagApp) (running : bool) (c : InfraredController) :
  state app = LaserTagStateGame ->
  key input_event = InputKeyUp ->
  press_or_repeat (type input_event) = true ->
  ir_controller app = Some c ->
  0 <= ammo (game_state app) <= INITIAL_AMMO ->
  exists (k : nat) (fx : NotificationSequence),
    (1 <= k <= 30)%nat
    /\ calls (fst (handle_input env input_event app running)) =
         calls app
         ++ [CallNotification sequence_short_beep; CallInfraredPause; CallReaderStart]
         ++ repeat (CallDelayMs 100) k
         ++ [CallReaderStop; CallInfraredResume; CallNotification fx]
    /\ (forall j, (1 <= j < k)%nat ->
        ammo (game_state (after_sleeps j (scan env) app)) = ammo (game_state app))
    /\ ((k < 30)%nat ->
        ammo (game_state (after_sleeps k (scan env) app)) <> ammo (game_state app))
    /\ game_state (fst (handle_input env input_event app running)) =
         game_state (run_asyncs (late env) (after_sleeps k (scan env) app))
    /\ (fx = sequence_success <->
        ammo (game_state (fst (handle_input env input_event app running)))
        <> ammo (game_state app))
    /\ (fx = sequence_error <->
        ammo (game_state (fst (handle_input env input_event app running)))
        = ammo (game_state app))
    /\ (fx = sequence_error ->
        forall j, (j <= k)%nat ->
        ammo (game_state (after_sleeps j (scan env) app)) = ammo (game_state app))
    /\ scanning (reader (fst (handle_input env input_event app running))) = false
    /\ option_map worker_rx_active
         (ir_controller (fst (handle_input env input_event app running))) = Some true
    /\ snd (handle_input env input_event app running) = running.
Proof.
  intros Hstate Hkey Hpress Hc Hammo.
  unfold handle_input. rewrite Hpress, Hstate, Hkey. simpl InputKey_eqb.
  cbv iota. simpl andb. cbv iota. simpl fst. simpl snd.
  unfold scan_for_ammo.
  set (opened := lfrfid_reader_start
                   (on_ir_controller CallInfraredPause infrared_controller_pause
                      (notification_message sequence_short_beep app))).
  change (game_state_get_ammo
            (game_state (notification_message sequence_short_beep app)))
    with (ammo (game_state app)).
  rewrite (u16_small (ammo (game_state app))) by lia.
  destruct (scan_poll_spec 30 (ammo (game_state app)) (scan env) opened)
    as (k & Hk & Hrun & Hbefore & Hat); [lia|].
  rewrite Hrun.
  set (closed := run_asyncs (late env) (after_sleeps k (scan env) opened)).
  change (game_state_get_ammo
            (game_state
               (on_ir_controller CallInfraredResume infrared_controller_resume
                  (lfrfid_reader_stop closed))))
    with (ammo (game_state closed)).
  assert (Hplay : forall j,
             game_state (after_sleeps j (scan env) opened)
             = game_state (after_sleeps j (scan env) app)
             /\ state (after_sleeps j (scan env) opened)
                = state (after_sleeps j (scan env) app)).
  { intros j. apply after_sleeps_same_play; reflexivity. }
  assert (Hgame : game_state closed
                  = game_state (run_asyncs (late env) (after_sleeps k (scan env) app))).
  { unfold closed. apply run_asyncs_same_play; apply Hplay. }
  assert (Hcalls : calls closed
                   = calls app
                     ++ [CallNotification sequence_short_beep; CallInfraredPause;
                         CallReaderStart]
                     ++ repeat (CallDelayMs 100) k).
  { unfold closed.
    destruct (run_asyncs_frame (late env) (after_sleeps k (scan env) opened))
      as (_ & _ & _ & _ & Hc' & _).
    rewrite Hc', after_sleeps_calls. unfold opened. simpl.
    rewrite <- !app_assoc. reflexivity. }
  assert (Hir : ir_controller closed = Some (infrared_controller_pause c)).
  { unfold closed.
    destruct (run_asyncs_frame (late env) (after_sleeps k (scan env) opened))
      as (_ & Hi & _).
    destruct (after_sleeps_frame k (scan env) opened) as (_ & Hi' & _).
    rewrite Hi, Hi'. unfold opened. simpl. rewrite Hc. reflexivity. }
  exists k.
  exists (if negb (ammo (game_state app) =? ammo (game_state closed))
          then sequence_success else sequence_error).
  split; [exact Hk|].
  split.
  { destruct (negb (ammo (game_state app) =? ammo (game_state closed)));
      simpl; rewrite Hcalls; rewrite <- !app_assoc; reflexivity. }
  split.
  { intros j Hj. destruct (Hplay j) as [<- _]. apply Hbefore. exact Hj. }
  split.
  { intros Hlt. destruct (Hplay k) as [<- _]. apply Hat. exact Hlt. }
  split.
  { rewrite <- Hgame.
    destruct (negb (ammo (game_state app) =? ammo (game_state closed))); reflexivity. }
  assert (Hfinal : forall b : bool,
             ammo (game_state
                     (with_need_redraw true
                        (if b
                         then notification_message sequence_success
                                (on_ir_controller CallInfraredResume
                                   infrared_controller_resume
                                   (lfrfid_reader_stop closed))
                         else notification_message sequence_error
                                (on_ir_controller CallInfraredResume
                                   infrared_controller_resume
                                   (lfrfid_reader_stop closed)))))
             = ammo (game_state closed)).
  { intros [|]; reflexivity. }
  rewrite Hfinal.
  destruct (Z.eqb_spec (ammo (game_state app)) (ammo (game_state closed)))
    as [E|NE]; simpl negb; cbv iota.
  - split; [split; [discriminate | intros H; exfalso; apply H; symmetry; exact E]|].
    split; [split; [intros _; symmetry; exact E | reflexivity]|].
    split.
    { intros _ j Hj.
      destruct (after_sleeps_ammo j k (scan env) app Hj Hammo) as (H1 & H2 & H3).
      pose proof (run_asyncs_ammo (late env) (after_sleeps k (scan env) app)
                    ltac:(lia)) as H4.
      rewrite <- Hgame in H4. lia. }
    split; [reflexivity|]. split; [|reflexivity].
    simpl. rewrite Hir. reflexivity.
  - split; [split; [intros _ H; apply NE; symmetry; exact H | reflexivity]|].
    split; [split; [discriminate | intros H; exfalso; apply NE; symmetry; exact H]|].
    split; [discriminate|].
    split; [reflexivity|]. split; [|reflexivity].
    simpl. rewrite Hir. reflexivity.
Qed.

(** ** Fire and reload *)

(** C6: an OK press in the game state does nothing at all while the
    controller is in the middle of a signal; otherwise it sends, takes
    one round of ammo (none when the ammo is 0 already) and requests
    the beep and the blink. *)
Theorem ok_press_fires (env : TickEnv) (input_event : InputEvent)
    (app : LaserTagApp) (running : bool) (c : InfraredController) :
  state app = LaserTagStateGame ->
  key input_event = InputKeyOk ->
  press_or_repeat (type input_event) = true ->
  ir_controller app = Some c ->
  handle_input env input_event app running = (laser_tag_app_fire app, running)
  /\ (processing_signal c = true -> laser_tag_app_fire app = app)
  /\ (processing_signal c = false ->
      calls (laser_tag_app_fire app) =
        calls app ++ [CallInfraredSend;
                      CallNotification sequence_short_beep;
                      CallNotification sequence_blink_white_100]
      /\ ammo (game_state (laser_tag_app_fire app))
         = Z.max 0 (ammo (game_state app) - 1)
      /\ (0 < ammo (game_state app) ->
          ammo (game_state (laser_tag_app_fire app)) = ammo (game_state app) - 1)
      /\ (ammo (game_state app) = 0 ->
          ammo (game_state (laser_tag_app_fire app)) = 0)
      /\ health (game_state (laser_tag_app_fire app)) = health (game_state app)
      /\ state (laser_tag_app_fire app) = state app).
Proof.
  intros Hstate Hkey Hpress Hc.
  split; [|split].
  - unfold handle_input. rewrite Hpress, Hstate, Hkey. reflexivity.
  - intros Hp. unfold laser_tag_app_fire. rewrite Hc, Hp. reflexivity.
  - intros Hp. unfold laser_tag_app_fire. rewrite Hc, Hp. simpl.
    rewrite <- !app_assoc. simpl.
    split; [reflexivity|]. split; [reflexivity|].
    split; [intros; lia|]. split; [intros; lia|]. split; reflexivity.
Qed.

(** C7: a Down press in the game state reloads to [INITIAL_AMMO] when
    the ammo is 0, and does nothing at all when it is not. *)
Theorem down_press_reloads (env : TickEnv) (input_event : InputEvent)
    (app : LaserTagApp) (running : bool) :
  state app = LaserTagStateGame ->
  key input_event = InputKeyDown ->
  press_or_repeat (type input_event) = true ->
  (ammo (game_state app) = 0 ->
   handle_input env input_event app running =
     (with_need_redraw true
        (with_game_state
           (mkGameState (health (game_state app)) INITIAL_AMMO
              (game_time (game_state app)))
           app),
      running))
  /\ (ammo (game_state app) <> 0 ->
      handle_input env input_event app running = (app, running)).
Proof.
  intros Hstate Hkey Hpress.
  unfold handle_input. rewrite Hpress, Hstate, Hkey. simpl InputKey_eqb.
  unfold game_state_get_ammo, game_state_increase_ammo. split.
  - intros H0. rewrite H0. simpl.
    rewrite Z.min_id. reflexivity.
  - intros Hne.
    destruct (Z.eqb_spec (ammo (game_state app)) 0) as [E|_]; [contradiction|].
    reflexivity.
Qed.

(** ** The hit poll *)

(** An input event in the game state leaves the screen and the health
    as they are. *)
Lemma handle_input_in_game (env : TickEnv) (input_event : InputEvent)
    (app : LaserTagApp) (running : bool) :
  state app = LaserTagStateGame ->
  state (fst (handle_input env input_event app running)) = LaserTagStateGame
  /\ health (game_state (fst (handle_input env input_event app running)))
     = health (game_state app).
Proof.
  intros Hstate. unfold handle_input.
  destruct (press_or_repeat (type input_event)); [|simpl; auto].
  rewrite Hstate.
  destruct (InputKey_eqb (key input_event) InputKeyDown
            && (game_state_get_ammo (game_state app) =? 0)); [simpl; auto|].
  destruct (key input_event); simpl fst; auto.
  - (* Up *)
    unfold scan_for_ammo.
    match goal with
    | |- context [scan_poll 30 ?a ?s ?o] =>
        destruct (scan_poll_spec 30 a s o) as (k & _ & Hrun & _); [lia|];
        rewrite Hrun;
        destruct (run_asyncs_frame (late env) (after_sleeps k s o))
          as (_ & _ & Hs & _ & _ & Hh);
        destruct (after_sleeps_frame k s o) as (_ & _ & Hs' & _ & Hh')
    end.
    split.
    + match goal with
      | |- context [if ?b then _ else _] => destruct b
      end; simpl; rewrite Hs, Hs'; exact Hstate.
    + match goal with
      | |- context [if ?b then _ else _] => destruct b
      end; simpl; rewrite Hh, Hh'; reflexivity.
  - (* Ok *)
    unfold laser_tag_app_fire.
    destruct (ir_controller app) as [c|]; [|auto].
    destruct (processing_signal c); simpl; auto.
Qed.

Lemma redraw_frame (app : LaserTagApp) :
  state (redraw app) = state app
  /\ game_state (redraw app) = game_state app
  /\ ir_controller (redraw app) = ir_controller app
  /\ event_queue (redraw app) = event_queue app.
Proof. unfold redraw. destruct (need_redraw app); repeat split. Qed.

(** The part of an iteration before the hit poll does not leave the
    game state and does not touch the health. *)
Lemma before_poll_in_game (env : TickEnv) (l : Loop) :
  state (app l) = LaserTagStateGame ->
  state (app (before_poll env l)) = LaserTagStateGame
  /\ health (game_state (app (before_poll env l))) = health (game_state (app l)).
Proof.
  intros Hstate. unfold before_poll.
  destruct (furi_message_queue_get
              (event_queue (poll_board_status env (app l))) (event l))
    as [[status ev] q] eqn:Hget.
  destruct status; try (simpl; auto).
  destruct (handle_input env ev
              (with_event_queue q (poll_board_status env (app l))) (running l))
    as [app' running'] eqn:Hin.
  pose proof (handle_input_in_game env ev
                (with_event_queue q (poll_board_status env (app l)))
                (running l) Hstate) as [Hs Hh].
  rewrite Hin in Hs, Hh. simpl in *. auto.
Qed.

(** A pending hit at the poll: ten health points go, saturating at 0,
    and the screen is the game-over screen iff none are left. *)
Lemma poll_hit_pending (event : InputEvent) (app : LaserTagApp)
    (c : InfraredController) :
  state app = LaserTagStateGame ->
  ir_controller app = Some c ->
  fst (infrared_controller_receive c) = true ->
  health (game_state (poll_hit event app))
  = Z.max 0 (health (game_state app) - 10)
  /\ (state (poll_hit event app) = LaserTagStateGameOver
      <-> health (game_state (poll_hit event app)) = 0).
Proof.
  intros Hstate Hc Hhit. simpl in Hhit.
  unfold poll_hit. rewrite Hstate, Hc.
  unfold infrared_controller_receive. rewrite Hhit.
  unfold laser_tag_app_handle_hit, game_state_is_game_over. simpl.
  destruct (Z.max 0 (health (game_state app) - 10) =? 0) eqn:E;
    simpl; rewrite ?E; simpl.
  - apply Z.eqb_eq in E.
    split; [reflexivity|]. split; intros _; [exact E | reflexivity].
  - apply Z.eqb_neq in E.
    split; [reflexivity|]. rewrite Hstate.
    split; [discriminate | intros E'; contradiction].
Qed.

(** After the poll an iteration only redraws and sleeps. *)
Lemma loop_iteration_after_poll (env : TickEnv) (l : Loop) :
  state (app (loop_iteration env l))
  = state (poll_hit (event (before_poll env l)) (app (before_poll env l)))
  /\ game_state (app (loop_iteration env l))
     = game_state (poll_hit (event (before_poll env l)) (app (before_poll env l)))
  /\ ir_controller (app (loop_iteration env l))
     = ir_controller (poll_hit (event (before_poll env l)) (app (before_poll env l)))
  /\ event_queue (app (loop_iteration env l))
     = event_queue (poll_hit (event (before_poll env l)) (app (before_poll env l)))
  /\ event (loop_iteration env l) = event (before_poll env l)
  /\ running (loop_iteration env l) = running (before_poll env l).
Proof.
  unfold loop_iteration, furi_delay_ms, run_asyncs. simpl.
  destruct (redraw_frame (poll_hit (event (before_poll env l))
                            (app (before_poll env l)))) as (Rs & Rg & Ri & Rq).
  repeat split; assumption.
Qed.

(** C3: when the game is on and the receive at the poll of an iteration
    reports a pending hit, the iteration takes exactly 10 health points,
    saturating at 0, and ends on the game-over screen iff the health it
    leaves is 0, which is when [game_state_is_game_over] holds. *)
Theorem hit_on_tick (env : TickEnv) (l : Loop) (c : InfraredController) :
  state (app l) = LaserTagStateGame ->
  ir_controller (app (before_poll env l)) = Some c ->
  fst (infrared_controller_receive c) = true ->
  health (game_state (app (loop_iteration env l)))
  = Z.max 0 (health (game_state (app l)) - 10)
  /\ (state (app (loop_iteration env l)) = LaserTagStateGameOver
      <-> health (game_state (app (loop_iteration env l))) = 0)
  /\ (game_state_is_game_over (game_state (app (loop_iteration env l))) = true
      <-> health (game_state (app (loop_iteration env l))) = 0).
Proof.
  intros Hstate Hc Hhit.
  destruct (before_poll_in_game env l Hstate) as [Hs Hh].
  destruct (poll_hit_pending (event (before_poll env l))
              (app (before_poll env l)) c Hs Hc Hhit) as [Hhealth Hover].
  destruct (loop_iteration_after_poll env l) as (Ls & Lg & _).
  rewrite Ls, Lg, Hhealth, <- Hh.
  split; [reflexivity|]. split.
  - rewrite Hhealth in Hover. exact Hover.
  - unfold game_state_is_game_over. rewrite Hhealth. apply Z.eqb_eq.
Qed.

(** ** The session invariant *)

Lemma scan_for_ammo_frame (env : TickEnv) (app : LaserTagApp) :
  event_queue (scan_for_ammo env app) = event_queue app
  /\ state (scan_for_ammo env app) = state app
  /\ health (game_state (scan_for_ammo env app)) = health (game_state app)
  /\ (ir_controller (scan_for_ammo env app) = None <-> ir_controller app = None)
  /\ (game_state_ok (game_state app) ->
      game_state_ok (game_state (scan_for_ammo env app))).
Proof.
  unfold scan_for_ammo.
  set (opened := lfrfid_reader_start
                   (on_ir_controller CallInfraredPause infrared_controller_pause
                      (notification_message sequence_short_beep app))).
  set (ammo0 := u16 (game_state_get_ammo
                       (game_state (notification_message sequence_short_beep app)))).
  destruct (scan_poll_spec 30 ammo0 (scan env) opened)
    as (k & _ & Hrun & _); [lia|].
  rewrite Hrun.
  set (closed := run_asyncs (late env) (after_sleeps k (scan env) opened)).
  destruct (run_asyncs_frame (late env) (after_sleeps k (scan env) opened))
    as (Q & I & S & _ & _ & H).
  destruct (after_sleeps_frame k (scan env) opened) as (Q' & I' & S' & _ & H').
  fold closed in Q, I, S, H.
  assert (Hok : game_state_ok (game_state app) -> game_state_ok (game_state closed)).
  { intros Hok. unfold closed. apply run_asyncs_ok, after_sleeps_ok. exact Hok. }
  destruct (negb _); simpl; rewrite ?Q, ?Q', ?I, ?I', ?S, ?S', ?H, ?H';
    unfold opened; simpl;
    (split; [reflexivity|]); (split; [reflexivity|]); (split; [reflexivity|]);
    (split; [|exact Hok]);
    destruct (ir_controller app); simpl; split; congruence.
Qed.

Lemma handle_input_ok (env : TickEnv) (input_event event0 : InputEvent)
    (app : LaserTagApp) (running : bool) :
  session_ok (mkLoop app event0 running) ->
  session_ok (mkLoop (fst (handle_input env input_event app running))
                     input_event
                     (snd (handle_input env input_event app running))).
Proof.
  unfold session_ok, game_state_ok. simpl.
  intros (Hq & (Hh & Ha) & Hpos & Hnull).
  unfold handle_input.
  destruct (press_or_repeat (type input_event)); [|simpl; session_close].
  destruct (state app) eqn:Hstate.
  - (* splash screen *)
    destruct (key input_event); simpl; rewrite ?Hstate; try session_close.
    unfold laser_tag_app_enter_game_state. simpl.
    destruct (ir_controller app), (ir_alloc_ok env); simpl; session_close.
  - (* game *)
    destruct (InputKey_eqb (key input_event) InputKeyDown
              && (game_state_get_ammo (game_state app) =? 0)) eqn:Hdown.
    + simpl. rewrite Hstate. session_close.
    + destruct (key input_event); cbn [fst snd].
      * (* Up *)
        destruct (scan_for_ammo_frame env app) as (Q & S & H & I & Hok).
        destruct Hok as [Hh' Ha']; [split; assumption|].
        rewrite Q, S, H, Hstate. session_split; intros;
          try match goal with
            | Hi : ir_controller (scan_for_ammo _ _) = None |- _ => apply I in Hi
            end;
          session_close.
      * rewrite Hstate. session_close.
      * rewrite Hstate. session_close.
      * rewrite Hstate. session_close.
      * (* Ok *)
        unfold laser_tag_app_fire.
        destruct (ir_controller app) as [c|] eqn:Hc;
          [destruct (processing_signal c)|]; simpl;
          rewrite ?Hstate, ?Hc; session_close.
      * (* Back *)
        rewrite Hstate. session_close.
  - (* game over *)
    destruct (InputKey_eqb (key input_event) InputKeyOk); simpl;
      rewrite ?Hstate; session_close.
Qed.

Lemma poll_hit_ok (input_event event0 : InputEvent) (app : LaserTagApp)
    (running : bool) :
  session_ok (mkLoop app event0 running) ->
  session_ok (mkLoop (poll_hit input_event app) event0 running).
Proof.
  unfold session_ok, game_state_ok. simpl.
  intros (Hq & (Hh & Ha) & Hpos & Hnull).
  unfold poll_hit.
  destruct (state app) eqn:Hstate.
  - rewrite Hstate. session_close.
  - destruct (ir_controller app) as [c|] eqn:Hc;
      [|rewrite Hstate, Hc; session_close].
    unfold infrared_controller_receive, laser_tag_app_handle_hit,
      game_state_is_game_over.
    destruct (hit_received c); simpl.
    + destruct (Z.max 0 (health (game_state app) - 10) =? 0) eqn:E;
        simpl; rewrite ?E; simpl; rewrite ?Hstate;
        try apply Z.eqb_neq in E; session_close.
    + destruct (health (game_state app) =? 0) eqn:E;
        simpl; rewrite ?Hstate; try apply Z.eqb_neq in E; session_close.
  - destruct (InputKey_eqb (key input_event) InputKeyOk); simpl;
      rewrite ?Hstate; session_close.
Qed.

Lemma before_poll_ok (env : TickEnv) (l : Loop) :
  session_ok l -> session_ok (before_poll env l).
Proof.
  intros Hok. unfold before_poll.
  assert (Hready : forall q' e,
             capacity q' = 8%nat ->
             session_ok (mkLoop (with_event_queue q' (poll_board_status env (app l)))
                                e (running l))).
  { intros q' e Hq'. destruct Hok as (Hq & Hg & Hpos & Hnull).
    unfold session_ok, poll_board_status, on_ir_controller. simpl.
    session_split; try assumption.
    intros Hr Hi. apply Hnull; [exact Hr|].
    destruct (ir_controller (app l)); [discriminate | reflexivity]. }
  unfold furi_message_queue_get.
  assert (Hcap : capacity (event_queue (poll_board_status env (app l))) = 8%nat)
    by (destruct Hok as (Hq & _); exact Hq).
  destruct (messages (event_queue (poll_board_status env (app l))))
    as [|msg rest] eqn:Hmsgs.
  - destruct (event_queue (poll_board_status env (app l))) as [cap msgs] eqn:Hqe.
    apply Hready. exact Hcap.
  - pose proof (handle_input_ok env msg msg
                  (with_event_queue
                     (mkQueue
                        (capacity (event_queue (poll_board_status env (app l))))
                        rest)
                     (poll_board_status env (app l)))
                  (running l)
                  (Hready
                     (mkQueue
                        (capacity (event_queue (poll_board_status env (app l))))
                        rest)
                     msg Hcap)) as Hin.
    destruct (handle_input env msg _ (running l)) as [app' running'].
    exact Hin.
Qed.

Lemma loop_iteration_ok (env : TickEnv) (l : Loop) :
  session_ok l -> session_ok (loop_iteration env l).
Proof.
  intros Hok. apply (before_poll_ok env) in Hok.
  destruct (loop_iteration_after_poll env l) as (Ls & Lg & Li & Lq & Le & Lr).
  assert (Hp : session_ok
                 (mkLoop (poll_hit (event (before_poll env l))
                            (app (before_poll env l)))
                         (event (before_poll env l))
                         (running (before_poll env l)))).
  { apply poll_hit_ok. destruct (before_poll env l); exact Hok. }
  destruct Hp as (Hq & Hg & Hpos & Hnull). simpl in Hq, Hg, Hpos, Hnull.
  unfold session_ok. rewrite Ls, Lg, Li, Lq, Lr.
  session_split; assumption.
Qed.

Lemma step_ok (s : Stimulus) (l : Loop) : session_ok l -> session_ok (step s l).
Proof.
  intros Hok. destruct s as [env|input_event| |hit processing]; simpl.
  - destruct (running l); [apply loop_iteration_ok|]; exact Hok.
  - destruct Hok as (Hq & Hg & Hpos & Hnull).
    unfold session_ok, laser_tag_app_input_callback, furi_message_queue_put. simpl.
    destruct (length (messages (event_queue (app l))) <? capacity (event_queue (app l)))%nat;
      [|destruct (0 =? 0)]; simpl; session_split; assumption.
  - destruct Hok as (Hq & Hg & Hpos & Hnull).
    destruct (timer_callback_frame (app l)) as (Q & I & S & _ & _ & H).
    unfold session_ok. cbn [app running]. rewrite Q, I, S.
    session_split; try assumption.
    + apply timer_callback_ok. exact Hg.
    + rewrite H. exact Hpos.
  - destruct Hok as (Hq & Hg & Hpos & Hnull).
    unfold session_ok. simpl. session_split; try assumption.
    intros Hr Hi. apply Hnull; [exact Hr|].
    destruct (ir_controller (app l)); [discriminate | reflexivity].
Qed.

Lemma run_ok (stimuli : list Stimulus) (l : Loop) :
  session_ok l -> session_ok (run stimuli l).
Proof.
  unfold run. revert l.
  induction stimuli as [|s stimuli IH]; intros l Hok; simpl; [exact Hok|].
  apply IH, step_ok, Hok.
Qed.

(** Every state the session reaches satisfies the invariant. *)
Lemma reachable_ok (l : Loop) : reachable l -> session_ok l.
Proof.
  intros (event0 & stimuli & ->). apply run_ok.
  unfold session_ok, game_state_ok. simpl.
  session_split; intros; try reflexivity; lia.
Qed.

(** While the loop runs, a session in the game has a controller. *)
Lemma game_has_controller (l : Loop) :
  reachable l -> running l = true -> state (app l) = LaserTagStateGame ->
  exists c, ir_controller (app l) = Some c.
Proof.
  intros Hreach Hrun Hstate.
  destruct (reachable_ok l Hreach) as (_ & _ & _ & Hnull).
  destruct (ir_controller (app l)) as [c|] eqn:Hc; [exists c; reflexivity|].
  specialize (Hnull Hrun eq_refl). congruence.
Qed.

(** Health and ammo of a reachable session are in the ranges of the
    data model. *)
Lemma reachable_ranges (l : Loop) :
  reachable l ->
  0 <= health (game_state (app l)) <= 100
  /\ 0 <= ammo (game_state (app l)) <= INITIAL_AMMO.
Proof.
  intros Hreach. destruct (reachable_ok l Hreach) as (_ & Hok & _). exact Hok.
Qed.

(** ** The input queue *)

(** C9: the input queue is allocated with 8 slots and stays at 8; an
    input event that arrives when 8 events wait makes the put return at
    once with an error that the callback drops, leaves the queue and the
    rest of the session as they were, and so never reaches the loop. *)
Theorem full_queue_drops_input (input_event : InputEvent) (l : Loop) :
  reachable l ->
  length (messages (event_queue (app l))) = 8%nat ->
  capacity (event_queue laser_tag_app_alloc) = 8%nat
  /\ capacity (event_queue (app l)) = 8%nat
  /\ furi_message_queue_put (event_queue (app l)) input_event 0
     = (FuriStatusErrorResource, event_queue (app l))
  /\ step (Input input_event) l = l
  /\ (forall stimuli, run stimuli (step (Input input_event) l) = run stimuli l).
Proof.
  intros Hreach Hfull.
  destruct (reachable_ok l Hreach) as (Hcap & _).
  assert (Hput : furi_message_queue_put (event_queue (app l)) input_event 0
                 = (FuriStatusErrorResource, event_queue (app l))).
  { unfold furi_message_queue_put. rewrite Hfull, Hcap. reflexivity. }
  assert (Hstep : step (Input input_event) l = l).
  { simpl. unfold laser_tag_app_input_callback. rewrite Hput.
    rewrite with_event_queue_same. destruct l; reflexivity. }
  split; [reflexivity|]. split; [exact Hcap|]. split; [exact Hput|].
  split; [exact Hstep|]. intros stimuli. rewrite Hstep. reflexivity.
Qed.

(** ** The controller pointer *)

(** C10: while the loop runs and [app->ir_controller] is [NULL], the
    session is on the splash screen; the fire procedure and the hit poll
    leave the application as it is, also at the poll of the iteration if
    the pointer is still [NULL] there; and the iteration starts by
    calling [update_infrared_board_status] with the [NULL] pointer. *)
Theorem null_controller_guards (env : TickEnv) (l : Loop) :
  reachable l ->
  running l = true ->
  ir_controller (app l) = None ->
  state (app l) = LaserTagStateSplashScreen
  /\ laser_tag_app_fire (app l) = app l
  /\ (forall e, poll_hit e (app l) = app l)
  /\ (ir_controller (app (before_poll env l)) = None ->
      poll_hit (event (before_poll env l)) (app (before_poll env l))
      = app (before_poll env l))
  /\ exists rest,
       calls (app (loop_iteration env l))
       = calls (app l) ++ CallUpdateBoardStatus true :: rest.
Proof.
  intros Hreach Hrun Hnull.
  destruct (reachable_ok l Hreach) as (_ & _ & _ & Hsplash).
  specialize (Hsplash Hrun Hnull).
  destruct l as [a e r]. simpl in *.
  split; [exact Hsplash|].
  split; [unfold laser_tag_app_fire; rewrite Hnull; reflexivity|].
  split; [intros e'; unfold poll_hit; rewrite Hsplash; reflexivity|].
  unfold loop_iteration, before_poll, poll_board_status, on_ir_controller,
    furi_message_queue_get.
  simpl. rewrite Hnull. simpl.
  destruct (messages (event_queue a)) as [|msg rest]; simpl.
  - split.
    + intros _. unfold poll_hit. simpl. rewrite Hsplash. reflexivity.
    + unfold poll_hit. simpl. rewrite Hsplash. unfold redraw. simpl.
      destruct (need_redraw a); simpl; rewrite <- ?app_assoc; simpl;
        eexists; reflexivity.
  - unfold handle_input. simpl. rewrite Hsplash.
    destruct (press_or_repeat (type msg)); simpl.
    + destruct (key msg); simpl;
        try (split;
             [ intros _; unfold poll_hit; simpl; rewrite Hsplash; reflexivity
             | unfold poll_hit; simpl; rewrite Hsplash; unfold redraw; simpl;
               destruct (need_redraw a); simpl; rewrite <- ?app_assoc; simpl;
               eexists; reflexivity ]).
      unfold laser_tag_app_enter_game_state. simpl. rewrite ?Hnull.
      destruct (ir_alloc_ok env); simpl.
      * split; [discriminate|].
        unfold redraw. simpl. rewrite <- ?app_assoc. simpl.
        eexists; reflexivity.
      * split; [reflexivity|].
        unfold redraw. simpl.
        destruct (need_redraw a); simpl; rewrite <- ?app_assoc; simpl;
          eexists; reflexivity.
    + split.
      * intros _. unfold poll_hit. simpl. rewrite Hsplash. reflexivity.
      * unfold poll_hit. simpl. rewrite Hsplash. unfold redraw. simpl.
        destruct (need_redraw a); simpl; rewrite <- ?app_assoc; simpl;
          eexists; reflexivity.
Qed.

(** ** Game over *)

(** The poll that puts the session on the game-over screen requests the
    failure sequence in [laser_tag_app_handle_hit] and once more in the
    loop's own check. *)
Lemma poll_hit_game_over_calls (input_event : InputEvent) (app : LaserTagApp) :
  state app = LaserTagStateGame ->
  0 < health (game_state app) ->
  state (poll_hit input_event app) = LaserTagStateGameOver ->
  calls (poll_hit input_event app)
  = calls app ++ [CallNotification sequence_vibro_1;
                  CallNotification sequence_error;
                  CallNotification sequence_error]
  /\ need_redraw (poll_hit input_event app) = true.
Proof.
  intros Hstate Hpos. unfold poll_hit. rewrite Hstate.
  destruct (ir_controller app) as [c|] eqn:Hc; [|congruence].
  unfold infrared_controller_receive, laser_tag_app_handle_hit,
    game_state_is_game_over.
  destruct (hit_received c); simpl.
  - destruct (Z.max 0 (health (game_state app) - 10) =? 0) eqn:E;
      simpl; rewrite ?E; simpl.
    + intros _. rewrite <- !app_assoc. split; reflexivity.
    + congruence.
  - destruct (Z.eqb_spec (health (game_state app)) 0) as [E|_]; [lia|].
    simpl. congruence.
Qed.

(** Every iteration that takes a session from the game to the game-over
    screen ends with the vibration, the failure sequence twice, the
    redraw and the sleep. *)
Lemma game_over_transition_calls (env : TickEnv) (l : Loop) :
  session_ok l ->
  state (app l) = LaserTagStateGame ->
  state (app (loop_iteration env l)) = LaserTagStateGameOver ->
  calls (app (loop_iteration env l))
  = calls (app (before_poll env l))
    ++ [CallNotification sequence_vibro_1;
        CallNotification sequence_error;
        CallNotification sequence_error;
        CallViewPortUpdate;
        CallDelayMs 10].
Proof.
  intros (_ & _ & Hpos & _) Hstate Hover.
  destruct (before_poll_in_game env l Hstate) as [Hs Hh].
  destruct (loop_iteration_after_poll env l) as (Ls & _).
  rewrite Ls in Hover.
  destruct (poll_hit_game_over_calls (event (before_poll env l))
              (app (before_poll env l)) Hs) as [Hcalls Hredraw];
    [rewrite Hh; apply Hpos; congruence | exact Hover |].
  unfold loop_iteration, furi_delay_ms, run_asyncs, redraw. simpl.
  rewrite Hredraw. simpl. rewrite Hcalls, <- !app_assoc. reflexivity.
Qed.

(** C4, on the code: a player with 10 health points left is hit; the
    iteration goes from the game to the game-over screen and requests
    the failure sequence twice, not once.  The same count results from
    a whole game of ten hits. *)
Theorem game_over_plays_error_twice (event0 : InputEvent) :
  state (in_game 10 5 true false) = LaserTagStateGame
  /\ state (app (loop_iteration quiet
                   (mkLoop (in_game 10 5 true false) event0 true)))
     = LaserTagStateGameOver
  /\ calls (app (loop_iteration quiet
                   (mkLoop (in_game 10 5 true false) event0 true)))
     = [CallUpdateBoardStatus false;
        CallNotification sequence_vibro_1;
        CallNotification sequence_error;
        CallNotification sequence_error;
        CallViewPortUpdate;
        CallDelayMs 10]
  /\ error_count
       (calls (app (loop_iteration quiet
                      (mkLoop (in_game 10 5 true false) event0 true))))
     = 2%nat
  /\ state (app (run ten_hits (laser_tag_app_start event0)))
     = LaserTagStateGameOver
  /\ error_count (calls (app (run ten_hits (laser_tag_app_start event0))))
     = 2%nat.
Proof. repeat split. Qed.

Lemma InputKey_eqb_eq (a b : InputKey) : InputKey_eqb a b = true <-> a = b.
Proof. destruct a, b; simpl; split; congruence. Qed.

(** On the game-over screen the part of an iteration before the poll
    either stays there or has gone to the splash screen on an OK key. *)
Lemma before_poll_game_over (env : TickEnv) (l : Loop) :
  state (app l) = LaserTagStateGameOver ->
  state (app (before_poll env l)) = LaserTagStateGameOver
  \/ (state (app (before_poll env l)) = LaserTagStateSplashScreen
      /\ key (event (before_poll env l)) = InputKeyOk).
Proof.
  intros Hstate. unfold before_poll, furi_message_queue_get.
  destruct (messages (event_queue (poll_board_status env (app l))))
    as [|msg rest]; [left; exact Hstate|].
  unfold handle_input. simpl. rewrite Hstate.
  destruct (press_or_repeat (type msg)); [|left; exact Hstate].
  destruct (InputKey_eqb (key msg) InputKeyOk) eqn:E; [|left; exact Hstate].
  right. split; [reflexivity|]. apply InputKey_eqb_eq. exact E.
Qed.

(** What the code does on the game-over screen: an iteration ends on
    the splash screen exactly when [event.key] is OK at its end, be the
    event a press, a repeat or a release, dequeued in this iteration or
    left from an earlier one. *)
Lemma game_over_restart_key (env : TickEnv) (l : Loop) :
  state (app l) = LaserTagStateGameOver ->
  (state (app (loop_iteration env l)) = LaserTagStateSplashScreen
   <-> key (event (loop_iteration env l)) = InputKeyOk)
  /\ (state (app (loop_iteration env l)) <> LaserTagStateSplashScreen ->
      state (app (loop_iteration env l)) = LaserTagStateGameOver).
Proof.
  intros Hstate.
  destruct (loop_iteration_after_poll env l) as (Ls & _ & _ & _ & Le & _).
  rewrite Ls, Le. unfold poll_hit.
  destruct (before_poll_game_over env l Hstate) as [Hover | [Hsplash Hkey]].
  - rewrite Hover.
    destruct (InputKey_eqb (key (event (before_poll env l))) InputKeyOk) eqn:E.
    + apply InputKey_eqb_eq in E. simpl. split; [tauto | congruence].
    + assert (key (event (before_poll env l)) <> InputKeyOk) as Hne.
      { intros Hk. apply InputKey_eqb_eq in Hk. congruence. }
      rewrite Hover. split; [split; [congruence | contradiction] | reflexivity].
  - rewrite Hsplash. split; [tauto | congruence].
Qed.

(** C5, on the code: after a game of ten hits the session is on the
    game-over screen, the input queue is empty and [event] still holds
    the release of the OK press that started the game; the next
    iteration, in which no input event arrives, resets the game state
    and goes to the splash screen.  So does an iteration that dequeues
    an OK release, which is neither a press nor a repeat. *)
Theorem stale_ok_key_restarts (event0 : InputEvent) :
  reachable (run ten_hits (laser_tag_app_start event0))
  /\ state (app (run ten_hits (laser_tag_app_start event0)))
     = LaserTagStateGameOver
  /\ messages (event_queue (app (run ten_hits (laser_tag_app_start event0)))) = []
  /\ event (run ten_hits (laser_tag_app_start event0)) = ok_release
  /\ state (app (loop_iteration quiet (run ten_hits (laser_tag_app_start event0))))
     = LaserTagStateSplashScreen
  /\ game_state
       (app (loop_iteration quiet (run ten_hits (laser_tag_app_start event0))))
     = mkGameState 100 INITIAL_AMMO 0
  /\ state (app (loop_iteration quiet
                   (mkLoop (with_event_queue (mkQueue 8 [ok_release])
                              (game_over_screen 0 5))
                           down_press true)))
     = LaserTagStateSplashScreen.
Proof.
  split; [exists event0, ten_hits; reflexivity|].
  repeat split.
Qed.

(** ** The input queue, continued *)

Lemma handle_input_queue (env : TickEnv) (input_event : InputEvent)
    (app : LaserTagApp) (running : bool) :
  event_queue (fst (handle_input env input_event app running)) = event_queue app.
Proof.
  unfold handle_input.
  destruct (press_or_repeat (type input_event)); [|reflexivity].
  destruct (state app).
  - destruct (key input_event); try reflexivity.
    unfold laser_tag_app_enter_game_state. simpl.
    destruct (ir_controller app), (ir_alloc_ok env); reflexivity.
  - destruct (InputKey_eqb (key input_event) InputKeyDown
              && (game_state_get_ammo (game_state app) =? 0)); [reflexivity|].
    destruct (key input_event); cbn [fst]; try reflexivity.
    + apply scan_for_ammo_frame.
    + unfold laser_tag_app_fire.
      destruct (ir_controller app) as [c|]; [|reflexivity].
      destruct (processing_signal c); reflexivity.
  - destruct (InputKey_eqb (key input_event) InputKeyOk); reflexivity.
Qed.

Lemma poll_hit_queue (input_event : InputEvent) (app : LaserTagApp) :
  event_queue (poll_hit input_event app) = event_queue app.
Proof.
  unfold poll_hit.
  destruct (state app); [reflexivity| |].
  - destruct (ir_controller app) as [c|]; [|reflexivity].
    unfold infrared_controller_receive, laser_tag_app_handle_hit.
    destruct (hit_received c); simpl;
      repeat match goal with
        | |- context [if ?b then _ else _] => destruct b; simpl
        end; reflexivity.
  - destruct (InputKey_eqb (key input_event) InputKeyOk); reflexivity.
Qed.

(** The part of an iteration before the poll, by what the queue holds. *)
Lemma before_poll_cases (env : TickEnv) (l : Loop) :
  match messages (event_queue (app l)) with
  | [] =>
      before_poll env l
      = mkLoop (with_event_queue (event_queue (app l)) (poll_board_status env (app l)))
               (event l) (running l)
  | msg :: _ =>
      before_poll env l
      = mkLoop (fst (handle_input env msg (at_dispatch env l) (running l)))
               msg
               (snd (handle_input env msg (at_dispatch env l) (running l)))
  end.
Proof.
  unfold before_poll, at_dispatch, furi_message_queue_get.
  change (event_queue (poll_board_status env (app l))) with (event_queue (app l)).
  destruct (messages (event_queue (app l))) as [|msg rest] eqn:Hm.
  - destruct (event_queue (app l)); reflexivity.
  - simpl tl.
    destruct (handle_input env msg _ (running l)); reflexivity.
Qed.

Lemma before_poll_queue (env : TickEnv) (l : Loop) :
  event_queue (app (before_poll env l))
  = mkQueue (capacity (event_queue (app l))) (tl (messages (event_queue (app l))))
  /\ event (before_poll env l) = hd (event l) (messages (event_queue (app l))).
Proof.
  pose proof (before_poll_cases env l) as H.
  destruct (messages (event_queue (app l))) as [|msg rest] eqn:Hm; rewrite H.
  - simpl. split; [|reflexivity].
    destruct (event_queue (app l)) as [cap msgs]. simpl in *. rewrite Hm. reflexivity.
  - cbn [app event hd]. rewrite handle_input_queue.
    unfold at_dispatch. rewrite Hm. split; reflexivity.
Qed.

Lemma loop_iteration_queue (env : TickEnv) (l : Loop) :
  event_queue (app (loop_iteration env l))
  = mkQueue (capacity (event_queue (app l))) (tl (messages (event_queue (app l)))).
Proof.
  destruct (loop_iteration_after_poll env l) as (_ & _ & _ & Lq & _).
  rewrite Lq, poll_hit_queue. apply before_poll_queue.
Qed.

(** X1: one iteration of the loop takes exactly the oldest queued input
    event, if there is one, into [event] and leaves the later ones
    queued in their order; with nothing queued, [event] and the queue
    stay as they were. *)
Theorem iteration_dequeues_oldest (env : TickEnv) (l : Loop) :
  messages (event_queue (app (loop_iteration env l)))
  = tl (messages (event_queue (app l)))
  /\ capacity (event_queue (app (loop_iteration env l)))
     = capacity (event_queue (app l))
  /\ event (loop_iteration env l) = hd (event l) (messages (event_queue (app l))).
Proof.
  destruct (loop_iteration_after_poll env l) as (_ & _ & _ & _ & Le & _).
  rewrite loop_iteration_queue, Le. cbn [messages capacity].
  split; [reflexivity|]. split; [reflexivity|].
  apply before_poll_queue.
Qed.

Lemma step_queue_bounded (s : Stimulus) (l : Loop) :
  queue_bounded l -> queue_bounded (step s l).
Proof.
  unfold queue_bounded. intros Hb.
  destruct s as [env|input_event| |hit processing]; unfold step; cbn [app].
  - destruct (running l); [|exact Hb].
    rewrite loop_iteration_queue. simpl.
    destruct (messages (event_queue (app l))); simpl in *; lia.
  - unfold laser_tag_app_input_callback, furi_message_queue_put.
    destruct (Nat.ltb_spec (length (messages (event_queue (app l))))
                (capacity (event_queue (app l)))) as [Hlt|Hge]; simpl.
    + rewrite length_app. simpl. lia.
    + exact Hb.
  - destruct (timer_callback_frame (app l)) as (Q & _). rewrite Q. exact Hb.
  - simpl. exact Hb.
Qed.

Lemma reachable_queue_bounded (l : Loop) : reachable l -> queue_bounded l.
Proof.
  intros (event0 & stimuli & ->). unfold run.
  assert (Hstart : queue_bounded (laser_tag_app_start event0))
    by (unfold queue_bounded; simpl; lia).
  revert Hstart. generalize (laser_tag_app_start event0).
  induction stimuli as [|s stimuli IH]; intros l Hl; simpl; [exact Hl|].
  apply IH, step_queue_bounded, Hl.
Qed.

(** X2: the input queue of a reachable session never holds more than 8
    events, and while it holds fewer the input callback puts the event
    at the tail of the queue and changes nothing else, so that events
    reach the loop in the order they arrived. *)
Theorem input_callback_enqueues (input_event : InputEvent) (l : Loop) :
  reachable l ->
  (length (messages (event_queue (app l))) <= 8)%nat
  /\ ((length (messages (event_queue (app l))) < 8)%nat ->
      step (Input input_event) l
      = mkLoop (with_event_queue
                  (mkQueue 8 (messages (event_queue (app l)) ++ [input_event]))
                  (app l))
               (event l) (running l)).
Proof.
  intros Hreach.
  pose proof (reachable_queue_bounded l Hreach) as Hb.
  destruct (reachable_ok l Hreach) as (Hcap & _).
  unfold queue_bounded in Hb. rewrite Hcap in Hb.
  split; [exact Hb|].
  intros Hlt. simpl.
  unfold laser_tag_app_input_callback, furi_message_queue_put.
  rewrite Hcap.
  destruct (Nat.ltb_spec (length (messages (event_queue (app l)))) 8) as [_|Hge];
    [reflexivity | lia].
Qed.

(** ** Leaving the loop, starting and restarting a game *)

Lemma handle_input_running (env : TickEnv) (input_event : InputEvent)
    (app : LaserTagApp) :
  snd (handle_input env input_event app true) = false
  <-> press_or_repeat (type input_event) = true
      /\ ((key input_event = InputKeyBack
           /\ state app <> LaserTagStateGameOver)
          \/ (key input_event = InputKeyOk
              /\ state app = LaserTagStateSplashScreen
              /\ ir_alloc_ok env = false)).
Proof.
  unfold handle_input, laser_tag_app_enter_game_state.
  destruct (press_or_repeat (type input_event)), (state app),
    (key input_event), (ir_alloc_ok env),
    (game_state_get_ammo (game_state app) =? 0);
    cbn -[scan_for_ammo laser_tag_app_fire];
    (split;
     [ intros H;
       first [ discriminate H
             | split; [reflexivity|];
               first [ left; split; [reflexivity | discriminate]
                     | right; repeat split; reflexivity ] ]
     | intros [Hp [[Hk Hs] | [Hk [Hs Ha]]]];
       first [ reflexivity | congruence ] ]).
Qed.

(** X3: a running loop is left by an iteration exactly when that
    iteration dequeues a press or repeat of Back on the splash screen
    or in the game, or of OK on the splash screen while the controller
    cannot be allocated.  The game-over screen has no way out. *)
Theorem loop_exit_conditions (env : TickEnv) (l : Loop) :
  running l = true ->
  (running (loop_iteration env l) = false
   <-> exists msg rest,
         messages (event_queue (app l)) = msg :: rest
         /\ press_or_repeat (type msg) = true
         /\ ((key msg = InputKeyBack
              /\ state (app l) <> LaserTagStateGameOver)
             \/ (key msg = InputKeyOk
                 /\ state (app l) = LaserTagStateSplashScreen
                 /\ ir_alloc_ok env = false))).
Proof.
  intros Hrun.
  destruct (loop_iteration_after_poll env l) as (_ & _ & _ & _ & _ & Lr).
  rewrite Lr.
  pose proof (before_poll_cases env l) as Hb.
  destruct (messages (event_queue (app l))) as [|msg rest]; rewrite Hb; cbn [running].
  - rewrite Hrun. split; [discriminate|]. intros (m & r & Hm & _). discriminate.
  - rewrite Hrun.
    pose proof (handle_input_running env msg (at_dispatch env l)) as Hin.
    change (state (at_dispatch env l)) with (state (app l)) in Hin.
    split.
    + intros H. exists msg, rest. split; [reflexivity|]. apply Hin. exact H.
    + intros (m & r & Hm & Hcond). injection Hm as <- <-. apply Hin. exact Hcond.
Qed.

(** X4: OK on the splash screen starts the game from the initial game
    state whatever the game state was, and gives up a controller that
    is still held before it allocates the new one.  If the allocation
    succeeds the fresh controller is installed and the loop goes on; if
    it fails the pointer is [NULL], the state is already the game state
    and the loop is left. *)
Theorem ok_on_splash_starts_game (env : TickEnv) (input_event : InputEvent)
    (app : LaserTagApp) (running : bool) :
  state app = LaserTagStateSplashScreen ->
  key input_event = InputKeyOk ->
  press_or_repeat (type input_event) = true ->
  state (fst (handle_input env input_event app running)) = LaserTagStateGame
  /\ game_state (fst (handle_input env input_event app running))
     = mkGameState 100 INITIAL_AMMO 0
  /\ calls (fst (handle_input env input_event app running))
     = calls app
       ++ match ir_controller app with
          | Some _ => [CallInfraredFree; CallInfraredAlloc]
          | None => [CallInfraredAlloc]
          end
  /\ (ir_alloc_ok env = true ->
      ir_controller (fst (handle_input env input_event app running))
      = Some infrared_controller_alloc
      /\ snd (handle_input env input_event app running) = running)
  /\ (ir_alloc_ok env = false ->
      ir_controller (fst (handle_input env input_event app running)) = None
      /\ snd (handle_input env input_event app running) = false).
Proof.
  intros Hstate Hkey Hpress.
  unfold handle_input. rewrite Hpress, Hstate, Hkey.
  unfold laser_tag_app_enter_game_state. simpl.
  destruct (ir_controller app) eqn:Hc, (ir_alloc_ok env); simpl;
    rewrite <- ?app_assoc, ?Hc; simpl;
    (split; [reflexivity|]); (split; [reflexivity|]); (split; [reflexivity|]);
    split; intros H; first [ discriminate H | split; reflexivity ].
Qed.

(** X5: after game over, an OK press that restarts and an OK press that
    starts again give a game in the initial game state with a fresh
    controller.  The controller of the lost game is kept over the splash
    screen and freed only when the new game starts: the restart itself
    makes no call. *)
Theorem restart_round_trip (env1 env2 : TickEnv) (ev1 ev2 : InputEvent)
    (app : LaserTagApp) (running : bool) (c : InfraredController) :
  state app = LaserTagStateGameOver ->
  ir_controller app = Some c ->
  key ev1 = InputKeyOk -> press_or_repeat (type ev1) = true ->
  key ev2 = InputKeyOk -> press_or_repeat (type ev2) = true ->
  ir_alloc_ok env2 = true ->
  state (fst (handle_input env1 ev1 app running)) = LaserTagStateSplashScreen
  /\ ir_controller (fst (handle_input env1 ev1 app running)) = Some c
  /\ calls (fst (handle_input env1 ev1 app running)) = calls app
  /\ handle_input env2 ev2 (fst (handle_input env1 ev1 app running))
       (snd (handle_input env1 ev1 app running))
     = (mkApp (event_queue app) (Some infrared_controller_alloc)
              (mkGameState 100 INITIAL_AMMO 0) LaserTagStateGame true
              (reader app)
              (calls app ++ [CallInfraredFree; CallInfraredAlloc]),
        running).
Proof.
  intros Hstate Hc Hk1 Hp1 Hk2 Hp2 Halloc.
  destruct app as [q ic g s n r cs]. simpl in Hstate, Hc. subst s ic.
  unfold handle_input. rewrite Hp1, Hk1. cbn.
  rewrite Hp2, Hk2.
  unfold laser_tag_app_enter_game_state. cbn. rewrite Halloc. cbn.
  split; [reflexivity|]. split; [reflexivity|]. split; [reflexivity|].
  cbv [with_need_redraw with_ir_controller emit with_game_state with_state
       event_queue ir_controller game_state state need_redraw reader calls
       game_state_reset].
  rewrite <- app_assoc. reflexivity.
Qed.

(** ** The tag callback and the scan window, continued *)

(** X6: whatever bytes and length a tag delivers, with the ammo in its
    range the tag callback never lowers the ammo, never raises it above
    [INITIAL_AMMO], and changes nothing but the ammo: health, elapsed
    time, screen, queue, controller and calls stay. *)
Theorem tag_callback_never_lowers (data : list byte) (length : Z)
    (app : LaserTagApp) :
  0 <= ammo (game_state app) <= INITIAL_AMMO ->
  ammo (game_state app)
  <= ammo (game_state (tag_callback data length app)) <= INITIAL_AMMO
  /\ tag_callback data length app
     = with_game_state
         (mkGameState (health (game_state app))
            (ammo (game_state (tag_callback data length app)))
            (game_time (game_state app)))
         app.
Proof.
  intros Ha. split.
  - exact (run_async_ammo (TagScanned data length) app Ha).
  - unfold tag_callback.
    destruct (negb (length =? 5));
      [destruct app as [q c [h a t] s n r cs]; reflexivity|].
    destruct (negb (data_at data 0 =? 0x13) || negb (data_at data 1 =? 0x37));
      [destruct app as [q c [h a t] s n r cs]; reflexivity|].
    destruct (data_at data 3 =? 0xFD);
      [|destruct app as [q c [h a t] s n r cs]; reflexivity].
    reflexivity.
Qed.

(** X7: two refill tags read one after the other add up under one
    clamp: the ammo rises by [min(a + b, INITIAL_AMMO - ammo)], so the
    order of the two tags does not matter. *)
Theorem refill_tags_add_up (b2 b2' a b : byte) (app : LaserTagApp) :
  0 <= ammo (game_state app) <= INITIAL_AMMO ->
  tag_callback [x13; x37; b2'; xfd; b] 5
    (tag_callback [x13; x37; b2; xfd; a] 5 app)
  = with_game_state
      (mkGameState (health (game_state app))
         (ammo (game_state app)
          + Z.min (u8 a + u8 b) (INITIAL_AMMO - ammo (game_state app)))
         (game_time (game_state app)))
      app
  /\ tag_callback [x13; x37; b2'; xfd; b] 5
       (tag_callback [x13; x37; b2; xfd; a] 5 app)
     = tag_callback [x13; x37; b2; xfd; a] 5
         (tag_callback [x13; x37; b2'; xfd; b] 5 app).
Proof.
  intros Ha. pose proof (u8_range a) as Ra. pose proof (u8_range b) as Rb.
  assert (Hboth : forall (c2 c2' x y : byte),
             tag_callback [x13; x37; c2'; xfd; y] 5
               (tag_callback [x13; x37; c2; xfd; x] 5 app)
             = with_game_state
                 (mkGameState (health (game_state app))
                    (ammo (game_state app)
                     + Z.min (u8 x + u8 y) (INITIAL_AMMO - ammo (game_state app)))
                    (game_time (game_state app)))
                 app).
  { intros c2 c2' x y.
    pose proof (u8_range x) as Rx. pose proof (u8_range y) as Ry.
    rewrite (refill_payload_unfolds c2 x app), refill_delta by exact Ha.
    rewrite refill_payload_unfolds.
    unfold game_state_increase_ammo. simpl.
    rewrite refill_delta by lia.
    unfold with_game_state. simpl. f_equal. f_equal. lia. }
  split; [apply Hboth|].
  rewrite (Hboth b2 b2' a b), (Hboth b2' b2 b a).
  f_equal. f_equal. lia.
Qed.

(** The calls of a scan window, whatever the ammo. *)
Lemma scan_for_ammo_calls (env : TickEnv) (app : LaserTagApp) :
  exists (k : nat) (fx : NotificationSequence),
    (1 <= k <= 30)%nat
    /\ (fx = sequence_success \/ fx = sequence_error)
    /\ calls (scan_for_ammo env app) = calls app ++ scan_calls k fx.
Proof.
  unfold scan_for_ammo.
  set (opened := lfrfid_reader_start
                   (on_ir_controller CallInfraredPause infrared_controller_pause
                      (notification_message sequence_short_beep app))).
  set (ammo0 := u16 (game_state_get_ammo
                       (game_state (notification_message sequence_short_beep app)))).
  destruct (scan_poll_spec 30 ammo0 (scan env) opened)
    as (k & Hk & Hrun & _); [lia|].
  rewrite Hrun.
  set (closed := run_asyncs (late env) (after_sleeps k (scan env) opened)).
  assert (Hcalls : calls closed
                   = calls app
                     ++ [CallNotification sequence_short_beep; CallInfraredPause;
                         CallReaderStart]
                     ++ repeat (CallDelayMs 100) k).
  { unfold closed.
    destruct (run_asyncs_frame (late env) (after_sleeps k (scan env) opened))
      as (_ & _ & _ & _ & Hc' & _).
    rewrite Hc', after_sleeps_calls. unfold opened. simpl.
    rewrite <- !app_assoc. reflexivity. }
  exists k.
  destruct (negb _).
  - exists sequence_success. split; [exact Hk|]. split; [left; reflexivity|].
    unfold scan_calls. simpl. rewrite Hcalls, <- !app_assoc. reflexivity.
  - exists sequence_error. split; [exact Hk|]. split; [right; reflexivity|].
    unfold scan_calls. simpl. rewrite Hcalls, <- !app_assoc. reflexivity.
Qed.

(** X8: with full ammo a scan cannot succeed: whatever tags are read
    during the window, an Up press at ammo [INITIAL_AMMO] sleeps all 30
    times, requests the failure sequence and leaves the ammo full. *)
Theorem full_ammo_scan_fails (env : TickEnv) (input_event : InputEvent)
    (app : LaserTagApp) (running : bool) :
  state app = LaserTagStateGame ->
  key input_event = InputKeyUp ->
  press_or_repeat (type input_event) = true ->
  ammo (game_state app) = INITIAL_AMMO ->
  calls (fst (handle_input env input_event app running))
  = calls app ++ scan_calls 30 sequence_error
  /\ ammo (game_state (fst (handle_input env input_event app running)))
     = INITIAL_AMMO.
Proof.
  intros Hstate Hkey Hpress Hfull.
  assert (Hammo : 0 <= ammo (game_state app) <= INITIAL_AMMO) by lia.
  unfold handle_input. rewrite Hpress, Hstate, Hkey. simpl InputKey_eqb.
  cbv iota. simpl andb. cbv iota. simpl fst.
  unfold scan_for_ammo.
  set (opened := lfrfid_reader_start
                   (on_ir_controller CallInfraredPause infrared_controller_pause
                      (notification_message sequence_short_beep app))).
  change (game_state_get_ammo
            (game_state (notification_message sequence_short_beep app)))
    with (ammo (game_state app)).
  rewrite (u16_small (ammo (game_state app))) by lia.
  destruct (scan_poll_spec 30 (ammo (game_state app)) (scan env) opened)
    as (k & Hk & Hrun & _ & Hat); [lia|].
  assert (Hopened : 0 <= ammo (game_state opened) <= INITIAL_AMMO) by exact Hammo.
  assert (Hk30 : k = 30%nat).
  { destruct (Nat.eq_dec k 30) as [E|NE]; [exact E|]. exfalso.
    apply Hat; [lia|].
    destruct (after_sleeps_ammo k k (scan env) opened (le_n k) Hopened)
      as (H1 & _ & H3).
    change (ammo (game_state opened)) with (ammo (game_state app)) in H1. lia. }
  subst k. rewrite Hrun.
  set (closed := run_asyncs (late env) (after_sleeps 30 (scan env) opened)).
  assert (Hclosed : ammo (game_state closed) = ammo (game_state app)).
  { destruct (after_sleeps_ammo 30 30 (scan env) opened (le_n 30) Hopened)
      as (H1 & _ & H3).
    pose proof (run_asyncs_ammo (late env) (after_sleeps 30 (scan env) opened)
                  ltac:(lia)) as H4.
    fold closed in H4.
    change (ammo (game_state opened)) with (ammo (game_state app)) in H1. lia. }
  change (game_state_get_ammo
            (game_state
               (on_ir_controller CallInfraredResume infrared_controller_resume
                  (lfrfid_reader_stop closed))))
    with (ammo (game_state closed)).
  rewrite Hclosed, Z.eqb_refl. simpl negb. cbv iota.
  assert (Hcalls : calls closed
                   = calls app
                     ++ [CallNotification sequence_short_beep; CallInfraredPause;
                         CallReaderStart]
                     ++ repeat (CallDelayMs 100) 30).
  { unfold closed.
    destruct (run_asyncs_frame (late env) (after_sleeps 30 (scan env) opened))
      as (_ & _ & _ & _ & Hc' & _).
    rewrite Hc', after_sleeps_calls. unfold opened. simpl calls.
    rewrite <- !app_assoc. reflexivity. }
  split.
  - unfold scan_calls.
    change (calls
              (with_need_redraw true
                 (notification_message sequence_error
                    (on_ir_controller CallInfraredResume infrared_controller_resume
                       (lfrfid_reader_stop closed)))))
      with (((calls closed ++ [CallReaderStop]) ++ [CallInfraredResume])
            ++ [CallNotification sequence_error]).
    rewrite Hcalls, <- !app_assoc. reflexivity.
  - change (ammo
              (game_state
                 (with_need_redraw true
                    (notification_message sequence_error
                       (on_ir_controller CallInfraredResume
                          infrared_controller_resume (lfrfid_reader_stop closed))))))
      with (ammo (game_state closed)).
    rewrite Hclosed. exact Hfull.
Qed.

(** ** The calls of an iteration *)

Lemma handle_input_calls (env : TickEnv) (input_event : InputEvent)
    (app : LaserTagApp) (running : bool) :
  exists new,
    calls (fst (handle_input env input_event app running)) = calls app ++ new
    /\ dispatch_calls input_event app new.
Proof.
  unfold handle_input, dispatch_calls.
  destruct (press_or_repeat (type input_event));
    [|exists []; simpl; rewrite app_nil_r; split; reflexivity].
  destruct (state app) eqn:Hstate.
  - destruct (key input_event);
      try (exists []; simpl; rewrite app_nil_r; split; reflexivity).
    unfold laser_tag_app_enter_game_state. simpl.
    destruct (ir_controller app), (ir_alloc_ok env); simpl;
      rewrite <- ?app_assoc; simpl; eexists; split; reflexivity.
  - destruct (InputKey_eqb (key input_event) InputKeyDown
              && (game_state_get_ammo (game_state app) =? 0)) eqn:Hdown.
    + exists []. simpl. rewrite app_nil_r. split; [reflexivity|].
      destruct (key input_event); try reflexivity; discriminate.
    + destruct (key input_event); cbn [fst];
        [ | exists []; rewrite app_nil_r; split; reflexivity
          | exists []; rewrite app_nil_r; split; reflexivity
          | exists []; rewrite app_nil_r; split; reflexivity
          |
          | exists []; rewrite app_nil_r; split; reflexivity ].
      * destruct (scan_for_ammo_calls env app) as (k & fx & Hk & Hfx & Hc).
        exists (scan_calls k fx). split; [exact Hc|].
        exists k, fx. split; [exact Hk|]. split; [exact Hfx | reflexivity].
      * unfold laser_tag_app_fire.
        destruct (ir_controller app) as [c|] eqn:Hc;
          [|exists []; rewrite app_nil_r; split; reflexivity].
        destruct (processing_signal c);
          [exists []; rewrite app_nil_r; split; reflexivity|].
        simpl. rewrite <- !app_assoc. simpl.
        eexists; split; reflexivity.
  - exists [].
    destruct (InputKey_eqb (key input_event) InputKeyOk); simpl;
      rewrite app_nil_r; (split; [reflexivity|]);
      destruct (key input_event); reflexivity.
Qed.

Lemma poll_hit_calls_eq (input_event : InputEvent) (app : LaserTagApp) :
  calls (poll_hit input_event app) = calls app ++ poll_hit_calls app.
Proof.
  unfold poll_hit, poll_hit_calls.
  destruct (state app); [symmetry; apply app_nil_r| |].
  - destruct (ir_controller app) as [c|]; [|symmetry; apply app_nil_r].
    unfold infrared_controller_receive, laser_tag_app_handle_hit,
      game_state_is_game_over.
    destruct (hit_received c); simpl.
    + destruct (Z.max 0 (health (game_state app) - 10) =? 0) eqn:E;
        simpl; rewrite ?E; simpl; rewrite <- ?app_assoc; reflexivity.
    + destruct (health (game_state app) =? 0); simpl;
        rewrite ?app_nil_r; reflexivity.
  - destruct (InputKey_eqb (key input_event) InputKeyOk); simpl;
      rewrite app_nil_r; reflexivity.
Qed.

Lemma redraw_calls (app : LaserTagApp) :
  calls (redraw app)
  = calls app ++ (if need_redraw app then [CallViewPortUpdate] else [])
  /\ need_redraw (redraw app) = false.
Proof.
  unfold redraw. destruct (need_redraw app) eqn:E; simpl.
  - split; reflexivity.
  - rewrite app_nil_r. split; [reflexivity | exact E].
Qed.

Lemma before_poll_calls (env : TickEnv) (l : Loop) :
  exists new,
    calls (app (before_poll env l))
    = calls (app l)
      ++ CallUpdateBoardStatus
           (match ir_controller (app l) with None => true | Some _ => false end)
         :: new
    /\ iteration_dispatch_calls env l new.
Proof.
  pose proof (before_poll_cases env l) as Hb. unfold iteration_dispatch_calls.
  destruct (messages (event_queue (app l))) as [|msg rest]; rewrite Hb.
  - exists []. split; reflexivity.
  - destruct (handle_input_calls env msg (at_dispatch env l) (running l))
      as (new & Hc & Hd).
    exists new. split; [|exact Hd].
    cbn [app]. rewrite Hc. unfold at_dispatch, poll_board_status, on_ir_controller.
    simpl. rewrite <- app_assoc. reflexivity.
Qed.

(** The calls of one iteration: the board-status poll, the calls of the
    dispatch, those of the hit poll, the redraw if the flag is up, and
    the sleep. *)
Lemma loop_iteration_calls (env : TickEnv) (l : Loop) :
  exists new,
    calls (app (loop_iteration env l))
    = calls (app l)
      ++ CallUpdateBoardStatus
           (match ir_controller (app l) with None => true | Some _ => false end)
         :: new
      ++ poll_hit_calls (app (before_poll env l))
      ++ (if need_redraw (poll_hit (event (before_poll env l))
                            (app (before_poll env l)))
          then [CallViewPortUpdate] else [])
      ++ [CallDelayMs 10]
    /\ iteration_dispatch_calls env l new
    /\ need_redraw (app (loop_iteration env l)) = false.
Proof.
  destruct (before_poll_calls env l) as (new & Hc & Hd).
  exists new. split; [|split; [exact Hd|]].
  - unfold loop_iteration, furi_delay_ms, run_asyncs. cbn [app fold_left calls emit].
    destruct (redraw_calls (poll_hit (event (before_poll env l))
                              (app (before_poll env l)))) as [Hr _].
    rewrite Hr, poll_hit_calls_eq, Hc.
    rewrite <- !app_assoc. simpl. reflexivity.
  - unfold loop_iteration, furi_delay_ms, run_asyncs.
    cbn [app fold_left need_redraw emit].
    apply redraw_calls.
Qed.

(** ** What the calls of a session never do *)

Lemma run_snoc (stimuli : list Stimulus) (s : Stimulus) (l : Loop) :
  run (stimuli ++ [s]) l = step s (run stimuli l).
Proof. unfold run. rewrite fold_left_app. reflexivity. Qed.

Lemma reachable_step (s : Stimulus) (l : Loop) :
  reachable l -> reachable (step s l).
Proof.
  intros (event0 & stimuli & ->).
  exists event0, (stimuli ++ [s]). symmetry. apply run_snoc.
Qed.

(** Induction over the sessions [laser_tag_app] can be in. *)
Lemma reachable_induction (P : Loop -> Prop) :
  (forall event0, P (laser_tag_app_start event0)) ->
  (forall s l, reachable l -> P l -> P (step s l)) ->
  forall l, reachable l -> P l.
Proof.
  intros Hstart Hstep l (event0 & stimuli & ->).
  induction stimuli as [|s stimuli IH] using rev_ind.
  - apply Hstart.
  - rewrite run_snoc. apply Hstep; [|exact IH].
    exists event0, stimuli. reflexivity.
Qed.

Lemma count_call_app (c : Call) (xs ys : list Call) :
  count_call c (xs ++ ys) = (count_call c xs + count_call c ys)%nat.
Proof. unfold count_call. apply count_occ_app. Qed.

Lemma count_call_scan (c : Call) (k : nat) (fx : NotificationSequence) :
  count_call c (scan_calls k fx)
  = (count_call c [CallNotification sequence_short_beep; CallInfraredPause;
                   CallReaderStart]
     + (if Call_eq_dec (CallDelayMs 100) c then k else 0)
     + count_call c [CallReaderStop; CallInfraredResume; CallNotification fx])%nat.
Proof.
  unfold scan_calls. rewrite !count_call_app.
  assert (Hrep : count_call c (repeat (CallDelayMs 100) k)
                 = if Call_eq_dec (CallDelayMs 100) c then k else 0%nat).
  { unfold count_call. destruct (Call_eq_dec (CallDelayMs 100) c) as [E|NE].
    - apply count_occ_repeat_eq. symmetry. exact E.
    - apply count_occ_repeat_neq. intros E. apply NE. symmetry. exact E. }
  rewrite Hrep. lia.
Qed.

(** The hit poll requests notifications and nothing else. *)
Lemma poll_hit_calls_notifications (app : LaserTagApp) (c : Call) :
  (forall s, c <> CallNotification s) ->
  count_call c (poll_hit_calls app) = 0%nat.
Proof.
  intros Hc. unfold poll_hit_calls.
  assert (Hn : forall s rest, count_call c rest = 0%nat ->
                 count_call c (CallNotification s :: rest) = 0%nat).
  { intros s rest Hrest. unfold count_call in *.
    rewrite count_occ_cons_neq; [exact Hrest|].
    intros E. apply (Hc s). symmetry. exact E. }
  destruct (state app); try reflexivity.
  destruct (ir_controller app) as [ic|]; try reflexivity.
  destruct (hit_received ic).
  - destruct (_ =? 0); repeat apply Hn; reflexivity.
  - destruct (_ =? 0); repeat apply Hn; reflexivity.
Qed.

(** The processing flag and the presence of a controller as the
    dispatch finds them are those at the start of the iteration. *)
Lemma at_dispatch_controller (env : TickEnv) (l : Loop) :
  state (at_dispatch env l) = state (app l)
  /\ game_state (at_dispatch env l) = game_state (app l)
  /\ match ir_controller (at_dispatch env l), ir_controller (app l) with
     | Some c', Some c =>
         processing_signal c' = processing_signal c
         /\ worker_rx_active c' = worker_rx_active c
     | None, None => True
     | _, _ => False
     end.
Proof.
  unfold at_dispatch, poll_board_status, on_ir_controller. simpl.
  split; [reflexivity|]. split; [reflexivity|].
  destruct (ir_controller (app l)) as [c|]; simpl; [|exact I].
  destruct (board env) as [|[|]]; simpl; split; reflexivity.
Qed.

Lemma dispatch_send_count (env : TickEnv) (l : Loop) (new : list Call) :
  iteration_dispatch_calls env l new ->
  count_call CallInfraredSend new = if shot_fired l then 1%nat else 0%nat.
Proof.
  unfold iteration_dispatch_calls, shot_fired, dispatch_calls.
  destruct (messages (event_queue (app l))) as [|msg rest]; [intros ->; reflexivity|].
  destruct (at_dispatch_controller env l) as (Hs & _ & Hc). rewrite Hs.
  destruct (press_or_repeat (type msg)); [|intros ->; reflexivity].
  destruct (state (app l)), (key msg); simpl;
    try (intros ->; reflexivity);
    try (destruct (ir_controller (app l)); intros ->; reflexivity).
  - (* game, Up *)
    intros (k & fx & _ & _ & ->). rewrite count_call_scan.
    destruct (Call_eq_dec (CallDelayMs 100) CallInfraredSend) as [E|_];
      [discriminate E|].
    destruct (ir_controller (app l)); reflexivity.
  - (* game, OK *)
    destruct (ir_controller (app l)) as [c|]; simpl;
      [|intros ->; reflexivity].
    destruct (board env) as [|[|]]; simpl;
      destruct (processing_signal c); intros ->; reflexivity.
Qed.

(** X9: an iteration transmits at most once, and it transmits exactly
    when it dequeues a press or repeat of OK in the game while a
    controller is present that is not in the middle of a signal: no
    other key, screen, callback or poll sends an infrared pulse. *)
Theorem transmits_only_when_fired (env : TickEnv) (l : Loop) :
  count_call CallInfraredSend (calls (app (loop_iteration env l)))
  = (count_call CallInfraredSend (calls (app l))
     + if shot_fired l then 1 else 0)%nat.
Proof.
  destruct (loop_iteration_calls env l) as (new & Hcalls & Hd & _).
  rewrite Hcalls.
  change (CallUpdateBoardStatus ?b :: ?rest)
    with ([CallUpdateBoardStatus b] ++ rest).
  rewrite !count_call_app.
  rewrite (dispatch_send_count env l new Hd).
  rewrite poll_hit_calls_notifications by discriminate.
  destruct (need_redraw _); simpl; lia.
Qed.

Lemma dispatch_paired_counts (env : TickEnv) (l : Loop) (new : list Call) :
  iteration_dispatch_calls env l new ->
  count_call CallReaderStart new = count_call CallReaderStop new
  /\ count_call CallInfraredPause new = count_call CallInfraredResume new.
Proof.
  unfold iteration_dispatch_calls, dispatch_calls.
  destruct (messages (event_queue (app l))) as [|msg rest];
    [intros ->; split; reflexivity|].
  destruct (press_or_repeat (type msg)); [|intros ->; split; reflexivity].
  destruct (state (at_dispatch env l)), (key msg);
    try (intros ->; split; reflexivity);
    try (destruct (ir_controller (at_dispatch env l)) as [c|];
         [try destruct (processing_signal c)|]; intros ->; split; reflexivity).
  intros (k & fx & _ & _ & ->). rewrite !count_call_scan.
  split; reflexivity.
Qed.

Lemma step_calls_asynchronous (s : Stimulus) (l : Loop) :
  (forall env, s <> Tick env) -> calls (app (step s l)) = calls (app l).
Proof.
  intros Hs. destruct s as [env|input_event| |hit processing].
  - exfalso. apply (Hs env). reflexivity.
  - unfold step, laser_tag_app_input_callback. cbn [app].
    destruct (furi_message_queue_put _ _ _). reflexivity.
  - unfold step. cbn [app]. apply timer_callback_frame.
  - reflexivity.
Qed.

(** X10: in every session the tag reader has been stopped as often as
    it has been started, and infrared reception resumed as often as it
    has been paused: each start and pause is undone within the same
    iteration, so neither outlasts the Up press that caused it. *)
Theorem reader_and_listener_calls_paired (l : Loop) :
  reachable l ->
  count_call CallReaderStart (calls (app l))
  = count_call CallReaderStop (calls (app l))
  /\ count_call CallInfraredPause (calls (app l))
     = count_call CallInfraredResume (calls (app l)).
Proof.
  revert l. apply reachable_induction.
  - intros event0. split; reflexivity.
  - intros s l _ [Hreader Hlistener].
    destruct s as [env| | |];
      [|rewrite step_calls_asynchronous by discriminate; split; assumption ..].
    simpl. destruct (running l); [|split; assumption].
    destruct (loop_iteration_calls env l) as (new & Hcalls & Hd & _).
    destruct (dispatch_paired_counts env l new Hd) as [Hr Hl].
    rewrite Hcalls.
    change (CallUpdateBoardStatus ?b :: ?rest)
      with ([CallUpdateBoardStatus b] ++ rest).
    rewrite !count_call_app.
    rewrite !poll_hit_calls_notifications by discriminate.
    rewrite Hreader, Hlistener, Hr, Hl.
    destruct (need_redraw _); split; reflexivity.
Qed.

(** X11: whatever an iteration does, its calls begin with the one poll
    of the board status and end with the one sleep of 10 ms; in between
    the view port is updated at most once, and the redraw flag is down
    when the iteration ends. *)
Theorem iteration_call_frame (env : TickEnv) (l : Loop) :
  exists mid,
    calls (app (loop_iteration env l))
    = calls (app l)
      ++ CallUpdateBoardStatus
           (match ir_controller (app l) with None => true | Some _ => false end)
         :: mid ++ [CallDelayMs 10]
    /\ (forall b, count_call (CallUpdateBoardStatus b) mid = 0%nat)
    /\ count_call (CallDelayMs 10) mid = 0%nat
    /\ (count_call CallViewPortUpdate mid <= 1)%nat
    /\ need_redraw (app (loop_iteration env l)) = false.
Proof.
  destruct (loop_iteration_calls env l) as (new & Hcalls & Hd & Hflag).
  exists (new
          ++ poll_hit_calls (app (before_poll env l))
          ++ (if need_redraw (poll_hit (event (before_poll env l))
                                (app (before_poll env l)))
              then [CallViewPortUpdate] else [])).
  split; [rewrite Hcalls, <- !app_assoc; reflexivity|].
  assert (Hnew : forall c,
             (forall s, c <> CallNotification s) ->
             c <> CallInfraredAlloc -> c <> CallInfraredFree ->
             c <> CallInfraredSend -> c <> CallInfraredPause ->
             c <> CallInfraredResume -> c <> CallReaderStart ->
             c <> CallReaderStop -> c <> CallDelayMs 100 ->
             count_call c new = 0%nat).
  { intros c Hn Ha Hf Hs Hp Hr Hst Hsp Hdl.
    assert (Hcons : forall x rest, x <> c -> count_call c rest = 0%nat ->
                      count_call c (x :: rest) = 0%nat).
    { intros x rest Hx Hrest. unfold count_call in *.
      rewrite count_occ_cons_neq; assumption. }
    unfold iteration_dispatch_calls, dispatch_calls in Hd.
    destruct (messages (event_queue (app l))) as [|msg rest];
      [rewrite Hd; reflexivity|].
    destruct (press_or_repeat (type msg)); [|rewrite Hd; reflexivity].
    destruct (state (at_dispatch env l)), (key msg);
      try (rewrite Hd; reflexivity).
    - destruct (ir_controller (at_dispatch env l)); rewrite Hd;
        repeat (apply Hcons; [congruence|]); reflexivity.
    - destruct Hd as (k & fx & _ & _ & ->). rewrite count_call_scan.
      destruct (Call_eq_dec (CallDelayMs 100) c) as [E|_];
        [exfalso; apply Hdl; symmetry; exact E|].
      assert (H1 : count_call c [CallNotification sequence_short_beep;
                                 CallInfraredPause; CallReaderStart] = 0%nat).
      { repeat (apply Hcons; [first [congruence | apply not_eq_sym, Hn]|]).
        reflexivity. }
      assert (H2 : count_call c [CallReaderStop; CallInfraredResume;
                                 CallNotification fx] = 0%nat).
      { repeat (apply Hcons; [first [congruence | apply not_eq_sym, Hn]|]).
        reflexivity. }
      rewrite H1, H2. reflexivity.
    - destruct (ir_controller (at_dispatch env l)) as [c0|];
        [destruct (processing_signal c0)|]; rewrite Hd; try reflexivity.
      repeat (apply Hcons; [first [congruence | apply not_eq_sym, Hn]|]).
      reflexivity. }
  split; [|split; [|split; [|exact Hflag]]].
  - intros b. rewrite !count_call_app.
    rewrite Hnew by discriminate.
    rewrite poll_hit_calls_notifications by discriminate.
    destruct (need_redraw _); reflexivity.
  - rewrite !count_call_app.
    rewrite Hnew by discriminate.
    rewrite poll_hit_calls_notifications by discriminate.
    destruct (need_redraw _); reflexivity.
  - rewrite !count_call_app.
    rewrite Hnew by discriminate.
    rewrite poll_hit_calls_notifications by discriminate.
    destruct (need_redraw _); simpl; lia.
Qed.

(** ** Controllers allocated and freed *)

Lemma handle_input_live (env : TickEnv) (input_event : InputEvent)
    (app : LaserTagApp) (running : bool) :
  live (fst (handle_input env input_event app running))
  = if press_or_repeat (type input_event)
       && InputKey_eqb (key input_event) InputKeyOk
       && match state app with LaserTagStateSplashScreen => true | _ => false end
    then if ir_alloc_ok env then 1%nat else 0%nat
    else live app.
Proof.
  unfold handle_input, live.
  destruct (press_or_repeat (type input_event)); [|reflexivity].
  destruct (state app).
  - destruct (key input_event); try reflexivity.
    unfold laser_tag_app_enter_game_state. simpl.
    destruct (ir_controller app) eqn:Hc, (ir_alloc_ok env); simpl;
      rewrite ?Hc; reflexivity.
  - destruct (InputKey_eqb (key input_event) InputKeyDown
              && (game_state_get_ammo (game_state app) =? 0));
      [rewrite andb_false_r; reflexivity|].
    destruct (key input_event); cbn [fst InputKey_eqb andb]; try reflexivity.
    + destruct (scan_for_ammo_frame env app) as (_ & _ & _ & Hnone & _).
      destruct (ir_controller (scan_for_ammo env app)) as [c'|],
               (ir_controller app) as [c|]; try reflexivity.
      * discriminate (proj2 Hnone eq_refl).
      * discriminate (proj1 Hnone eq_refl).
    + unfold laser_tag_app_fire.
      destruct (ir_controller app) as [c|] eqn:Hc; [|rewrite Hc; reflexivity].
      destruct (processing_signal c); simpl; rewrite Hc; reflexivity.
  - rewrite andb_false_r.
    destruct (InputKey_eqb (key input_event) InputKeyOk); reflexivity.
Qed.

Lemma poll_hit_live (input_event : InputEvent) (app : LaserTagApp) :
  live (poll_hit input_event app) = live app.
Proof.
  unfold poll_hit, live.
  destruct (state app); [reflexivity| |].
  - destruct (ir_controller app) as [c|] eqn:Hc;
      [|simpl; rewrite ?Hc; reflexivity].
    unfold infrared_controller_receive, laser_tag_app_handle_hit.
    destruct (hit_received c); simpl;
      repeat match goal with
        | |- context [if ?b then _ else _] =>
            match type of b with bool => destruct b; simpl end
        end; reflexivity.
  - destruct (InputKey_eqb (key input_event) InputKeyOk); reflexivity.
Qed.

Lemma at_dispatch_live (env : TickEnv) (l : Loop) :
  live (at_dispatch env l) = live (app l).
Proof.
  unfold live, at_dispatch, poll_board_status, on_ir_controller. simpl.
  destruct (ir_controller (app l)); reflexivity.
Qed.

Lemma loop_iteration_live (env : TickEnv) (l : Loop) :
  live (app (loop_iteration env l))
  = if game_started l
    then if ir_alloc_ok env then 1%nat else 0%nat
    else live (app l).
Proof.
  destruct (loop_iteration_after_poll env l) as (_ & _ & Li & _).
  assert (Hlive : live (app (loop_iteration env l))
                  = live (app (before_poll env l))).
  { rewrite <- (poll_hit_live (event (before_poll env l))
                  (app (before_poll env l))).
    unfold live. rewrite Li. reflexivity. }
  rewrite Hlive. unfold game_started.
  pose proof (before_poll_cases env l) as Hb.
  destruct (messages (event_queue (app l))) as [|msg rest]; rewrite Hb; cbn [app].
  - unfold live, poll_board_status, on_ir_controller. simpl.
    destruct (ir_controller (app l)); reflexivity.
  - rewrite handle_input_live, at_dispatch_live.
    destruct (at_dispatch_controller env l) as (Hs & _). rewrite Hs. reflexivity.
Qed.

Lemma dispatch_alloc_counts (env : TickEnv) (l : Loop) (new : list Call) :
  iteration_dispatch_calls env l new ->
  count_call CallInfraredAlloc new = (if game_started l then 1%nat else 0%nat)
  /\ count_call CallInfraredFree new
     = (if game_started l then live (app l) else 0%nat).
Proof.
  unfold iteration_dispatch_calls, game_started, dispatch_calls.
  destruct (messages (event_queue (app l))) as [|msg rest];
    [intros ->; split; reflexivity|].
  rewrite <- (at_dispatch_live env l).
  destruct (at_dispatch_controller env l) as (Hs & _). rewrite <- Hs.
  destruct (press_or_repeat (type msg)); [|intros ->; split; reflexivity].
  unfold live.
  destruct (state (at_dispatch env l)), (key msg);
    try (intros ->; split; reflexivity);
    try (destruct (ir_controller (at_dispatch env l)) as [c|];
         [try destruct (processing_signal c)|]; intros ->; split; reflexivity).
  intros (k & fx & _ & _ & ->). rewrite !count_call_scan.
  split; reflexivity.
Qed.

Lemma loop_iteration_running_started (env : TickEnv) (l : Loop) :
  running l = true -> game_started l = true ->
  running (loop_iteration env l) = ir_alloc_ok env.
Proof.
  intros Hrun Hstart.
  destruct (loop_iteration_after_poll env l) as (_ & _ & _ & _ & _ & Lr).
  rewrite Lr. unfold game_started in Hstart.
  pose proof (before_poll_cases env l) as Hb.
  destruct (messages (event_queue (app l))) as [|msg rest]; [discriminate|].
  rewrite Hb. cbn [running]. rewrite Hrun.
  apply andb_prop in Hstart. destruct Hstart as [Hpk Hsplash].
  apply andb_prop in Hpk. destruct Hpk as [Hpress Hkey].
  apply InputKey_eqb_eq in Hkey.
  pose proof (handle_input_running env msg (at_dispatch env l)) as Hin.
  destruct (at_dispatch_controller env l) as (Hs & _). rewrite Hs in Hin.
  destruct (state (app l)); try discriminate.
  destruct (ir_alloc_ok env) eqn:Halloc.
  - apply Bool.not_false_iff_true. intros E.
    apply Hin in E. destruct E as [_ [[Hk _] | [_ [_ Ha]]]]; congruence.
  - apply Hin. split; [exact Hpress|]. right. repeat split; assumption.
Qed.

Lemma step_asynchronous_live (s : Stimulus) (l : Loop) :
  (forall env, s <> Tick env) ->
  live (app (step s l)) = live (app l) /\ running (step s l) = running l.
Proof.
  intros Hs. destruct s as [env|input_event| |hit processing].
  - exfalso. apply (Hs env). reflexivity.
  - unfold step, laser_tag_app_input_callback, live. cbn [app running].
    destruct (furi_message_queue_put _ _ _). split; reflexivity.
  - unfold step, live. cbn [app running].
    destruct (timer_callback_frame (app l)) as (_ & I & _). rewrite I.
    split; reflexivity.
  - unfold live. simpl. destruct (ir_controller (app l)); split; reflexivity.
Qed.

(** X12: no controller is leaked or freed twice.  While the loop runs,
    [infrared_controller_alloc] has been called exactly as often as
    [infrared_controller_free] plus one for the controller held; once
    the loop is left the frees plus the controller held still never
    exceed the allocations, and fall short by at most the one
    allocation that failed. *)
Theorem controllers_balanced (l : Loop) :
  reachable l ->
  (running l = true ->
   count_call CallInfraredAlloc (calls (app l))
   = (count_call CallInfraredFree (calls (app l)) + live (app l))%nat)
  /\ (count_call CallInfraredFree (calls (app l)) + live (app l)
      <= count_call CallInfraredAlloc (calls (app l))
      <= count_call CallInfraredFree (calls (app l)) + live (app l) + 1)%nat.
Proof.
  revert l. apply reachable_induction.
  - intros event0. unfold count_call, live. simpl. split; [reflexivity | lia].
  - intros s l _ [Hrunning Hbounds].
    destruct s as [env|input_event| |hit processing].
    + simpl. destruct (running l) eqn:Hrun;
        [|split; [intros H; congruence | exact Hbounds]].
      specialize (Hrunning eq_refl).
      destruct (loop_iteration_calls env l) as (new & Hcalls & Hd & _).
      destruct (dispatch_alloc_counts env l new Hd) as [Ha Hf].
      assert (Hcount : forall c,
                 (forall s, c <> CallNotification s) ->
                 (forall b, c <> CallUpdateBoardStatus b) ->
                 c <> CallViewPortUpdate -> c <> CallDelayMs 10 ->
                 count_call c (calls (app (loop_iteration env l)))
                 = (count_call c (calls (app l)) + count_call c new)%nat).
      { intros c Hn Hb Hv Hdl. rewrite Hcalls.
        change (CallUpdateBoardStatus ?b :: ?rest)
          with ([CallUpdateBoardStatus b] ++ rest).
        rewrite !count_call_app.
        rewrite poll_hit_calls_notifications by exact Hn.
        assert (H1 : forall x, x <> c -> count_call c [x] = 0%nat).
        { intros x Hx. unfold count_call.
          rewrite count_occ_cons_neq by exact Hx. reflexivity. }
        rewrite H1 by (apply not_eq_sym, Hb).
        rewrite H1 by (apply not_eq_sym, Hdl).
        destruct (need_redraw _);
          [rewrite H1 by (apply not_eq_sym, Hv)|]; simpl; lia. }
      rewrite !Hcount by discriminate.
      rewrite Ha, Hf, loop_iteration_live.
      destruct (game_started l) eqn:Hstart.
      * rewrite (loop_iteration_running_started env l Hrun Hstart).
        destruct (ir_alloc_ok env); split; intros; try discriminate; lia.
      * split; intros; lia.
    + rewrite step_calls_asynchronous by discriminate.
      destruct (step_asynchronous_live (Input input_event) l) as [-> ->];
        [discriminate|]. split; [exact Hrunning | exact Hbounds].
    + rewrite step_calls_asynchronous by discriminate.
      destruct (step_asynchronous_live Timer l) as [-> ->];
        [discriminate|]. split; [exact Hrunning | exact Hbounds].
    + rewrite step_calls_asynchronous by discriminate.
      destruct (step_asynchronous_live (InfraredWorker hit processing) l)
        as [-> ->]; [discriminate|]. split; [exact Hrunning | exact Hbounds].
Qed.

(** ** The devices between iterations *)

Lemma scan_for_ammo_devices (env : TickEnv) (app : LaserTagApp) :
  reader (scan_for_ammo env app) = mkReader false
  /\ ir_controller (scan_for_ammo env app)
     = option_map infrared_controller_resume
         (option_map infrared_controller_pause (ir_controller app)).
Proof.
  unfold scan_for_ammo.
  set (opened := lfrfid_reader_start
                   (on_ir_controller CallInfraredPause infrared_controller_pause
                      (notification_message sequence_short_beep app))).
  set (ammo0 := u16 (game_state_get_ammo
                       (game_state (notification_message sequence_short_beep app)))).
  destruct (scan_poll_spec 30 ammo0 (scan env) opened)
    as (k & _ & Hrun & _); [lia|].
  rewrite Hrun.
  set (closed := run_asyncs (late env) (after_sleeps k (scan env) opened)).
  destruct (run_asyncs_frame (late env) (after_sleeps k (scan env) opened))
    as (_ & I & _).
  destruct (after_sleeps_frame k (scan env) opened) as (_ & I' & _).
  fold closed in I.
  destruct (negb _); simpl; rewrite I, I'; split; reflexivity.
Qed.

Ltac idle_same H :=
  split; [ assumption | intros ? ?; apply H; first [ assumption | congruence ] ].

Lemma handle_input_idle (env : TickEnv) (input_event : InputEvent)
    (app : LaserTagApp) (running : bool) :
  devices_idle app ->
  devices_idle (fst (handle_input env input_event app running)).
Proof.
  unfold devices_idle. intros [Hreader Hlisten].
  unfold handle_input.
  destruct (press_or_repeat (type input_event)); [|idle_same Hlisten].
  destruct (state app).
  - destruct (key input_event); try (idle_same Hlisten).
    unfold laser_tag_app_enter_game_state. simpl.
    destruct (ir_controller app) eqn:Hc, (ir_alloc_ok env); simpl;
      rewrite ?Hc;
      (split; [exact Hreader|]); intros c' Hc';
      first [ discriminate Hc' | inversion Hc'; reflexivity ].
  - destruct (InputKey_eqb (key input_event) InputKeyDown
              && (game_state_get_ammo (game_state app) =? 0));
      [idle_same Hlisten|].
    destruct (key input_event); cbn [fst]; try (idle_same Hlisten).
    + destruct (scan_for_ammo_devices env app) as [Hr Hi].
      rewrite Hr, Hi. split; [reflexivity|].
      intros c' Hc'. destruct (ir_controller app) as [c|]; [|discriminate].
      inversion Hc'. reflexivity.
    + unfold laser_tag_app_fire.
      destruct (ir_controller app) as [c|] eqn:Hc; [|idle_same Hlisten].
      destruct (processing_signal c); [idle_same Hlisten|].
      simpl. rewrite Hc. simpl. split; [exact Hreader|].
      intros c' Hc'. inversion Hc'. subst c'. apply Hlisten. reflexivity.
  - destruct (InputKey_eqb (key input_event) InputKeyOk); idle_same Hlisten.
Qed.

Lemma poll_hit_idle (input_event : InputEvent) (app : LaserTagApp) :
  devices_idle app -> devices_idle (poll_hit input_event app).
Proof.
  unfold devices_idle. intros [Hreader Hlisten].
  unfold poll_hit.
  destruct (state app); [idle_same Hlisten| |].
  - destruct (ir_controller app) as [c|] eqn:Hc; [|idle_same Hlisten].
    specialize (Hlisten c eq_refl).
    unfold infrared_controller_receive, laser_tag_app_handle_hit.
    destruct (hit_received c); simpl;
      repeat match goal with
        | |- context [if ?b then _ else _] =>
            match type of b with bool => destruct b; simpl end
        end;
      (split; [exact Hreader|]); intros c' Hc'; inversion Hc'; exact Hlisten.
  - destruct (InputKey_eqb (key input_event) InputKeyOk); idle_same Hlisten.
Qed.

Lemma at_dispatch_idle (env : TickEnv) (l : Loop) :
  devices_idle (app l) ->
  devices_idle (at_dispatch env l)
  /\ devices_idle (with_event_queue (event_queue (app l))
                     (poll_board_status env (app l))).
Proof.
  unfold devices_idle, at_dispatch, poll_board_status, on_ir_controller.
  simpl. intros [Hreader Hlisten].
  assert (H : forall c',
             option_map (update_infrared_board_status (board env))
               (ir_controller (app l)) = Some c' ->
             worker_rx_active c' = true).
  { intros c' Hc'. destruct (ir_controller (app l)) as [c|]; [|discriminate].
    specialize (Hlisten c eq_refl). inversion Hc'.
    destruct (board env) as [|[|]]; exact Hlisten. }
  repeat split; assumption.
Qed.

(** X13: between iterations the tag reader is never left scanning and
    infrared reception is never left paused: in every session the
    reader is stopped and the controller, if there is one, listens. *)
Theorem devices_idle_between_iterations (l : Loop) :
  reachable l -> devices_idle (app l).
Proof.
  revert l. apply reachable_induction.
  - intros event0. split; [reflexivity | discriminate].
  - intros s l _ Hidle.
    destruct s as [env|input_event| |hit processing].
    + simpl. destruct (running l); [|exact Hidle].
      destruct (loop_iteration_after_poll env l) as (_ & _ & Li & _).
      assert (Hpoll : devices_idle
                        (poll_hit (event (before_poll env l))
                           (app (before_poll env l)))).
      { apply poll_hit_idle.
        destruct (at_dispatch_idle env l Hidle) as [Hd Hq].
        pose proof (before_poll_cases env l) as Hb.
        destruct (messages (event_queue (app l))) as [|msg rest]; rewrite Hb;
          cbn [app]; [exact Hq | apply handle_input_idle, Hd]. }
      destruct Hpoll as [Hr Hl]. split.
      * unfold loop_iteration, furi_delay_ms, run_asyncs, redraw. simpl.
        destruct (need_redraw _); exact Hr.
      * intros c Hc. apply Hl. rewrite <- Li. exact Hc.
    + unfold step, laser_tag_app_input_callback. cbn [app].
      destruct (furi_message_queue_put _ _ _). exact Hidle.
    + unfold step. cbn [app]. destruct Hidle as [Hr Hl].
      destruct (timer_callback_frame (app l)) as (_ & I & _ & R & _).
      split; [rewrite R; exact Hr | rewrite I; exact Hl].
    + destruct Hidle as [Hr Hl]. split; [exact Hr|].
      simpl. intros c' Hc'.
      destruct (ir_controller (app l)) as [c|]; [|discriminate].
      specialize (Hl c eq_refl). inversion Hc'.
      unfold infrared_worker. rewrite Hl. reflexivity.
Qed.

(** ** Game over and health *)

Lemma handle_input_game_over (env : TickEnv) (input_event : InputEvent)
    (app : LaserTagApp) (running : bool) :
  state (fst (handle_input env input_event app running)) = LaserTagStateGameOver ->
  state app = LaserTagStateGameOver
  /\ game_state (fst (handle_input env input_event app running)) = game_state app.
Proof.
  destruct (state app) eqn:Hstate.
  - unfold handle_input. rewrite Hstate.
    destruct (press_or_repeat (type input_event)); [|simpl; congruence].
    unfold laser_tag_app_enter_game_state.
    destruct (key input_event); simpl; try congruence.
    destruct (ir_controller app), (ir_alloc_ok env); simpl; discriminate.
  - destruct (handle_input_in_game env input_event app running Hstate) as [Hs _].
    congruence.
  - unfold handle_input. rewrite Hstate.
    destruct (press_or_repeat (type input_event)); [|simpl; auto].
    destruct (InputKey_eqb (key input_event) InputKeyOk); simpl;
      [discriminate | auto].
Qed.

Lemma before_poll_game_over_from (env : TickEnv) (l : Loop) :
  state (app (before_poll env l)) = LaserTagStateGameOver ->
  state (app l) = LaserTagStateGameOver
  /\ game_state (app (before_poll env l)) = game_state (app l).
Proof.
  pose proof (before_poll_cases env l) as Hb.
  destruct (messages (event_queue (app l))) as [|msg rest]; rewrite Hb; cbn [app].
  - simpl. auto.
  - intros H. apply handle_input_game_over in H. exact H.
Qed.

Lemma poll_hit_game_over_health (input_event : InputEvent) (app : LaserTagApp) :
  state (poll_hit input_event app) = LaserTagStateGameOver ->
  (state app = LaserTagStateGameOver
   /\ game_state (poll_hit input_event app) = game_state app)
  \/ health (game_state (poll_hit input_event app)) = 0.
Proof.
  unfold poll_hit.
  destruct (state app) eqn:Hstate; [congruence| |].
  - destruct (ir_controller app) as [c|]; [|congruence].
    unfold infrared_controller_receive, laser_tag_app_handle_hit,
      game_state_is_game_over.
    destruct (hit_received c); simpl.
    + destruct (Z.max 0 (health (game_state app) - 10) =? 0) eqn:E;
        simpl; rewrite ?E; simpl.
      * intros _. right. apply Z.eqb_eq. exact E.
      * congruence.
    + destruct (health (game_state app) =? 0) eqn:E; simpl.
      * intros _. right. apply Z.eqb_eq. exact E.
      * congruence.
  - destruct (InputKey_eqb (key input_event) InputKeyOk); simpl;
      [discriminate | left; split; reflexivity].
Qed.

(** X14: in every session the game-over screen is shown exactly when
    the health is 0: the screen and the game state never disagree
    about whether the game is over. *)
Theorem game_over_iff_no_health (l : Loop) :
  reachable l ->
  (state (app l) = LaserTagStateGameOver <-> health (game_state (app l)) = 0).
Proof.
  intros Hreach. split.
  - revert l Hreach. apply (reachable_induction
      (fun l => state (app l) = LaserTagStateGameOver ->
                health (game_state (app l)) = 0)).
    + intros event0. simpl. discriminate.
    + intros s l _ IH.
      destruct s as [env|input_event| |hit processing].
      * simpl. destruct (running l); [|exact IH].
        destruct (loop_iteration_after_poll env l) as (Ls & Lg & _).
        rewrite Ls, Lg. intros Hover.
        destruct (poll_hit_game_over_health _ _ Hover) as [[Hb Hg] | H0];
          [|exact H0].
        rewrite Hg.
        destruct (before_poll_game_over_from env l Hb) as [Hl Hg'].
        rewrite Hg'. apply IH. exact Hl.
      * unfold step, laser_tag_app_input_callback. cbn [app].
        destruct (furi_message_queue_put _ _ _). exact IH.
      * unfold step. cbn [app].
        destruct (timer_callback_frame (app l)) as (_ & _ & S & _ & _ & H).
        rewrite S, H. exact IH.
      * exact IH.
  - intros H0. destruct (reachable_ok l Hreach) as (_ & _ & Hpos & _).
    destruct (state (app l)) eqn:Hstate; [| |reflexivity];
      (assert (0 < health (game_state (app l))) by (apply Hpos; discriminate); lia).
Qed.

(** ** Repeated callbacks and shots *)

(** X15: the elapsed time counts the timer callbacks that find the game
    on: [n] callbacks in the game add [n] seconds, on the splash and
    game-over screens they add none, and in no case do they touch
    health, ammo, the screen, the queue, the controller or the calls. *)
Theorem timer_counts_play_time (n : nat) (app : LaserTagApp) :
  game_time (game_state (Nat.iter n laser_tag_app_timer_callback app))
  = match state app with
    | LaserTagStateGame => game_time (game_state app) + Z.of_nat n
    | _ => game_time (game_state app)
    end
  /\ ammo (game_state (Nat.iter n laser_tag_app_timer_callback app))
     = ammo (game_state app)
  /\ async_frame app (Nat.iter n laser_tag_app_timer_callback app).
Proof.
  induction n as [|n (IHt & IHa & IHf)].
  - simpl. split; [destruct (state app); lia|]. split; [reflexivity|].
    apply async_frame_refl.
  - rewrite Nat.iter_succ.
    set (app' := Nat.iter n laser_tag_app_timer_callback app) in *.
    destruct IHf as (Q & I & S & R & C & H).
    split; [|split].
    + unfold laser_tag_app_timer_callback. rewrite S.
      destruct (state app); simpl; rewrite IHt; lia.
    + unfold laser_tag_app_timer_callback.
      destruct (state app'); simpl; exact IHa.
    + eapply async_frame_trans; [|apply timer_callback_frame].
      unfold async_frame. repeat split; assumption.
Qed.

Lemma fire_keeps_controller (app : LaserTagApp) (c : InfraredController) :
  ir_controller app = Some c ->
  ir_controller (laser_tag_app_fire app) = Some c.
Proof.
  intros Hc. unfold laser_tag_app_fire. rewrite Hc.
  destruct (processing_signal c); [exact Hc|].
  simpl. rewrite Hc. reflexivity.
Qed.

(** X16: [n] shots in a row with a controller that is not in the middle
    of a signal transmit [n] times and leave [max(0, ammo - n)] rounds:
    once the ammo is 0 every further shot is still sent.  Health and
    screen are not touched. *)
Theorem repeated_fire (n : nat) (app : LaserTagApp) (c : InfraredController) :
  ir_controller app = Some c ->
  processing_signal c = false ->
  0 <= ammo (game_state app) ->
  ammo (game_state (Nat.iter n laser_tag_app_fire app))
  = Z.max 0 (ammo (game_state app) - Z.of_nat n)
  /\ count_call CallInfraredSend (calls (Nat.iter n laser_tag_app_fire app))
     = (count_call CallInfraredSend (calls app) + n)%nat
  /\ health (game_state (Nat.iter n laser_tag_app_fire app))
     = health (game_state app)
  /\ state (Nat.iter n laser_tag_app_fire app) = state app.
Proof.
  intros Hc Hp Ha.
  assert (Hkeep : forall m, ir_controller (Nat.iter m laser_tag_app_fire app) = Some c).
  { induction m as [|m IH]; [exact Hc|].
    rewrite Nat.iter_succ. apply fire_keeps_controller, IH. }
  induction n as [|n (IHa & IHs & IHh & IHst)].
  - simpl. repeat split; lia.
  - rewrite Nat.iter_succ.
    set (app' := Nat.iter n laser_tag_app_fire app) in *.
    specialize (Hkeep n). fold app' in Hkeep.
    unfold laser_tag_app_fire. rewrite Hkeep, Hp. simpl.
    rewrite <- !app_assoc. rewrite count_call_app.
    rewrite IHa, IHs, IHh, IHst.
    split; [lia|]. split; [|split; reflexivity].
    unfold count_call. simpl. lia.
Qed.

(** X17: an iteration in the game whose receive reports no pending hit
    leaves the health and the game screen as they are, as long as
    health is left. *)
Theorem no_hit_no_damage (env : TickEnv) (l : Loop) (c : InfraredController) :
  state (app l) = LaserTagStateGame ->
  ir_controller (app (before_poll env l)) = Some c ->
  fst (infrared_controller_receive c) = false ->
  0 < health (game_state (app l)) ->
  health (game_state (app (loop_iteration env l))) = health (game_state (app l))
  /\ state (app (loop_iteration env l)) = LaserTagStateGame.
Proof.
  intros Hstate Hc Hhit Hpos. simpl in Hhit.
  destruct (before_poll_in_game env l Hstate) as [Hs Hh].
  destruct (loop_iteration_after_poll env l) as (Ls & Lg & _).
  rewrite Ls, Lg. unfold poll_hit. rewrite Hs, Hc.
  unfold infrared_controller_receive, game_state_is_game_over.
  rewrite Hhit. simpl.
  destruct (Z.eqb_spec (health (game_state (app (before_poll env l)))) 0)
    as [E|_]; [lia|].
  simpl. split; [exact Hh | exact Hs].
Qed.

(** ** The game-over frame *)

Lemma for_lt_more_fuel (fuel extra : nat) (i bound step : Z)
    (body : Z -> list CanvasOp) (ops : list CanvasOp) :
  for_lt fuel i bound step body = Some ops ->
  for_lt (fuel + extra) i bound step body = Some ops.
Proof.
  revert i ops. induction fuel as [|fuel IH]; intros i ops; simpl; [discriminate|].
  destruct (i <? bound); [|auto].
  destruct (for_lt fuel (i + step) bound step body) as [rest|] eqn:E;
    [|discriminate].
  rewrite (IH _ _ E). auto.
Qed.

(** X18: on the game-over screen the draw callback finishes within 17
    loop iterations and draws the frame of blocks completely and
    without overlap: every box is an 8x8 tile of the 16 by 8 grid that
    lies on the 128x64 screen, each of the 44 tiles on the rim of the
    grid is drawn exactly once, and no tile inside is drawn. *)
Theorem game_over_frame_complete (fuel : nat) (app : LaserTagApp) :
  state app = LaserTagStateGameOver ->
  (17 <= fuel)%nat ->
  exists ops,
    laser_tag_app_draw_callback fuel app = Some ops
    /\ forallb is_tile ops = true
    /\ forall i j, 0 <= i < 16 -> 0 <= j < 8 ->
       tile_drawn ops i j = if on_rim i j then 1%nat else 0%nat.
Proof.
  intros Hstate Hfuel.
  unfold laser_tag_app_draw_callback. rewrite Hstate.
  replace fuel with (17 + (fuel - 17))%nat by lia.
  destruct (for_lt 17 0 128 8
              (fun x => [canvas_draw_box x 0 8 8; canvas_draw_box x 56 8 8]))
    as [rows|] eqn:Hrows; [|vm_compute in Hrows; discriminate].
  destruct (for_lt 17 8 56 8
              (fun y => [canvas_draw_box 0 y 8 8; canvas_draw_box 120 y 8 8]))
    as [columns|] eqn:Hcolumns; [|vm_compute in Hcolumns; discriminate].
  rewrite (for_lt_more_fuel _ _ _ _ _ _ _ Hrows).
  rewrite (for_lt_more_fuel _ _ _ _ _ _ _ Hcolumns).
  vm_compute in Hrows. vm_compute in Hcolumns.
  injection Hrows as <-. injection Hcolumns as <-.
  eexists. split; [reflexivity|]. split; [vm_compute; reflexivity|].
  intros i j Hi Hj.
  assert (Hcases : forall i, 0 <= i < 16 ->
             i = 0 \/ i = 1 \/ i = 2 \/ i = 3 \/ i = 4 \/ i = 5 \/ i = 6 \/ i = 7
             \/ i = 8 \/ i = 9 \/ i = 10 \/ i = 11 \/ i = 12 \/ i = 13
             \/ i = 14 \/ i = 15) by (intros; lia).
  assert (Hj' : 0 <= j < 16) by lia.
  destruct (Hcases i Hi) as [->|[->|[->|[->|[->|[->|[->|[->|[->|[->|[->|[->|[->|[->|[->| ->]]]]]]]]]]]]]]];
    destruct (Hcases j Hj') as [->|[->|[->|[->|[->|[->|[->|[->|[->|[->|[->|[->|[->|[->|[->| ->]]]]]]]]]]]]]]];
    first [ lia | vm_compute; reflexivity ].
Qed.

(** ** Health in steps of ten *)

Lemma handle_input_health (env : TickEnv) (input_event : InputEvent)
    (app : LaserTagApp) (running : bool) :
  health (game_state (fst (handle_input env input_event app running)))
  = health (game_state app)
  \/ health (game_state (fst (handle_input env input_event app running))) = 100.
Proof.
  destruct (state app) eqn:Hstate.
  - unfold handle_input. rewrite Hstate.
    destruct (press_or_repeat (type input_event)); [|left; reflexivity].
    unfold laser_tag_app_enter_game_state.
    destruct (key input_event); simpl; try (left; reflexivity).
    destruct (ir_controller app), (ir_alloc_ok env); right; reflexivity.
  - left. apply handle_input_in_game. exact Hstate.
  - unfold handle_input. rewrite Hstate.
    destruct (press_or_repeat (type input_event)); [|left; reflexivity].
    destruct (InputKey_eqb (key input_event) InputKeyOk);
      [right | left]; reflexivity.
Qed.

Lemma poll_hit_health (input_event : InputEvent) (app : LaserTagApp) :
  health (game_state (poll_hit input_event app)) = health (game_state app)
  \/ health (game_state (poll_hit input_event app))
     = Z.max 0 (health (game_state app) - 10)
  \/ health (game_state (poll_hit input_event app)) = 100.
Proof.
  unfold poll_hit.
  destruct (state app); [left; reflexivity| |].
  - destruct (ir_controller app) as [c|]; [|left; reflexivity].
    unfold infrared_controller_receive, laser_tag_app_handle_hit.
    destruct (hit_received c); simpl;
      repeat match goal with
        | |- context [if ?b then _ else _] =>
            match type of b with bool => destruct b; simpl end
        end;
      first [ left; reflexivity | right; left; reflexivity ].
  - destruct (InputKey_eqb (key input_event) InputKeyOk);
      [right; right | left]; reflexivity.
Qed.

Lemma loop_iteration_health (env : TickEnv) (l : Loop) :
  health (game_state (app (loop_iteration env l))) = health (game_state (app l))
  \/ health (game_state (app (loop_iteration env l)))
     = Z.max 0 (health (game_state (app l)) - 10)
  \/ health (game_state (app (loop_iteration env l))) = 100
  \/ health (game_state (app (loop_iteration env l))) = 90.
Proof.
  destruct (loop_iteration_after_poll env l) as (_ & Lg & _). rewrite Lg.
  assert (Hb : health (game_state (app (before_poll env l)))
               = health (game_state (app l))
               \/ health (game_state (app (before_poll env l))) = 100).
  { pose proof (before_poll_cases env l) as Hb.
    destruct (messages (event_queue (app l))) as [|msg rest]; rewrite Hb;
      cbn [app]; [left; reflexivity|].
    destruct (handle_input_health env msg (at_dispatch env l) (running l))
      as [H|H]; [left | right]; exact H. }
  destruct (poll_hit_health (event (before_poll env l)) (app (before_poll env l)))
    as [H|[H|H]]; rewrite H; destruct Hb as [Hb|Hb]; rewrite ?Hb.
  - left. reflexivity.
  - right. right. left. reflexivity.
  - right. left. reflexivity.
  - right. right. right. reflexivity.
  - right. right. left. reflexivity.
  - right. right. left. reflexivity.
Qed.

(** X19: the health of a session is always one of 0, 10, ..., 100: it
    starts at 100, each hit takes 10, and a start or restart puts it
    back to 100, so a game is lost by exactly ten hits.  The ammo stays
    between 0 and [INITIAL_AMMO]. *)
Theorem health_in_steps_of_ten (l : Loop) :
  reachable l ->
  (exists k, 0 <= k <= 10 /\ health (game_state (app l)) = 10 * k)
  /\ 0 <= ammo (game_state (app l)) <= INITIAL_AMMO.
Proof.
  intros Hreach.
  destruct (reachable_ok l Hreach) as (_ & [Hh Ha] & _).
  split; [|exact Ha].
  assert (Hmod : health (game_state (app l)) mod 10 = 0).
  { clear Hh Ha. revert l Hreach. apply reachable_induction.
    - intros event0. reflexivity.
    - intros s l Hreach IH.
      destruct (reachable_ok l Hreach) as (_ & [Hh _] & _).
      destruct s as [env|input_event| |hit processing].
      + simpl. destruct (running l); [|exact IH].
        destruct (loop_iteration_health env l) as [H|[H|[H|H]]]; rewrite H;
          try reflexivity; try exact IH.
        apply Z.mod_divide in IH; [|lia]. destruct IH as [q Hq].
        destruct (Z.max_spec 0 (health (game_state (app l)) - 10))
          as [[_ ->] | [_ ->]]; [|reflexivity].
        rewrite Hq. replace (q * 10 - 10) with ((q - 1) * 10) by lia.
        apply Z.mod_mul. lia.
      + unfold step, laser_tag_app_input_callback. cbn [app].
        destruct (furi_message_queue_put _ _ _). exact IH.
      + unfold step. cbn [app].
        destruct (timer_callback_frame (app l)) as (_ & _ & _ & _ & _ & H).
        rewrite H. exact IH.
      + exact IH. }
  apply Z.mod_divide in Hmod; [|lia]. destruct Hmod as [q Hq].
  exists q. split; lia.
Qed.

(** ** The redraw flag *)



End LaserTag.

(** ** The theorems at concrete inputs

    The constant is taken to be 100 rounds. *)

Lemma tag_callback_refill_witness :
  ammo (game_state (tag_callback 100 refill_tag 5 (in_game 100 97 false false)))
  = 100
  /\ tag_callback 100 refill_tag 5 (in_game 100 100 false false)
     = in_game 100 100 false false.
Proof.
  split.
  - apply (proj1 (proj2 (tag_callback_refill 100 ltac:(lia) x00 x0a
                           (in_game 100 97 false false) ltac:(simpl; lia))));
      reflexivity.
  - apply (proj2 (proj2 (tag_callback_refill 100 ltac:(lia) x00 x0a
                           (in_game 100 100 false false) ltac:(simpl; lia))));
      reflexivity.
Defined.

Lemma tag_callback_rejects_witness :
  tag_callback 100 [x13; x37; x00; xfd] 4 (in_game 100 97 false false)
  = in_game 100 97 false false
  /\ tag_callback 100 [x13; x38; x00; xfd; x0a] 5 (in_game 100 97 false false)
     = in_game 100 97 false false
  /\ tag_callback 100 [x13; x37; x00; xfc; x0a] 5 (in_game 100 97 false false)
     = in_game 100 97 false false.
Proof.
  split; [|split].
  - apply (tag_callback_rejects 100). left. lia.
  - apply (tag_callback_rejects 100). right; right; left. vm_compute. lia.
  - apply (tag_callback_rejects 100). right; right; right. vm_compute. lia.
Defined.

Lemma hit_on_tick_witness :
  health (game_state (app (loop_iteration 100 quiet
                             (mkLoop (in_game 10 5 true false) ok_release true))))
  = 0
  /\ state (app (loop_iteration 100 quiet
                   (mkLoop (in_game 10 5 true false) ok_release true)))
     = LaserTagStateGameOver
  /\ health (game_state (app (loop_iteration 100 quiet
                                (mkLoop (in_game 30 5 true false) ok_release true))))
     = 20.
Proof.
  pose proof (hit_on_tick 100 quiet
                (mkLoop (in_game 10 5 true false) ok_release true)
                (mkInfraredController true true false)
                eq_refl eq_refl eq_refl) as (Hhealth & Hover & _).
  pose proof (hit_on_tick 100 quiet
                (mkLoop (in_game 30 5 true false) ok_release true)
                (mkInfraredController true true false)
                eq_refl eq_refl eq_refl) as (Hhealth' & _).
  split; [exact Hhealth|]. split; [|exact Hhealth'].
  apply Hover. exact Hhealth.
Defined.

Lemma ok_press_fires_witness :
  calls (fst (handle_input 100 quiet ok_press (in_game 100 0 false false) true))
  = [CallInfraredSend; CallNotification sequence_short_beep;
     CallNotification sequence_blink_white_100]
  /\ ammo (game_state
             (fst (handle_input 100 quiet ok_press (in_game 100 0 false false) true)))
     = 0
  /\ handle_input 100 quiet ok_press (in_game 100 7 false true) true
     = (in_game 100 7 false true, true).
Proof.
  destruct (ok_press_fires 100 quiet ok_press (in_game 100 0 false false) true
              (mkInfraredController true false false)
              eq_refl eq_refl eq_refl eq_refl) as (Hfire & _ & Hready).
  destruct (Hready eq_refl) as (Hcalls & _ & _ & Hzero & _).
  destruct (ok_press_fires 100 quiet ok_press (in_game 100 7 false true) true
              (mkInfraredController true false true)
              eq_refl eq_refl eq_refl eq_refl) as (Hfire' & Hbusy & _).
  rewrite Hfire, Hfire', (Hbusy eq_refl).
  split; [exact Hcalls|]. split; [exact (Hzero eq_refl) | reflexivity].
Defined.

Lemma down_press_reloads_witness :
  ammo (game_state
          (fst (handle_input 100 quiet down_press (in_game 100 0 false false) true)))
  = 100
  /\ handle_input 100 quiet down_press (in_game 100 7 false false) true
     = (in_game 100 7 false false, true).
Proof.
  destruct (down_press_reloads 100 quiet down_press (in_game 100 0 false false) true
              eq_refl eq_refl eq_refl) as (Hempty & _).
  destruct (down_press_reloads 100 quiet down_press (in_game 100 7 false false) true
              eq_refl eq_refl eq_refl) as (_ & Hsome).
  split.
  - rewrite (Hempty eq_refl). reflexivity.
  - apply Hsome. simpl. lia.
Defined.

Lemma up_press_scan_window_witness :
  exists (k : nat) (fx : NotificationSequence),
    (1 <= k <= 30)%nat
    /\ calls (fst (handle_input 100 tag_on_second_sleep up_press
                     (in_game 100 97 false false) true))
       = [CallNotification sequence_short_beep; CallInfraredPause; CallReaderStart]
         ++ repeat (CallDelayMs 100) k
         ++ [CallReaderStop; CallInfraredResume; CallNotification fx]
    /\ (fx = sequence_success <->
        ammo (game_state
                (fst (handle_input 100 tag_on_second_sleep up_press
                        (in_game 100 97 false false) true))) <> 97)
    /\ scanning
         (reader (fst (handle_input 100 tag_on_second_sleep up_press
                         (in_game 100 97 false false) true))) = false.
Proof.
  destruct (up_press_scan_window 100 ltac:(lia) tag_on_second_sleep up_press
              (in_game 100 97 false false) true
              (mkInfraredController true false false)
              eq_refl eq_refl eq_refl eq_refl ltac:(simpl; lia))
    as (k & fx & Hk & Hcalls & _ & _ & _ & Hsuccess & _ & _ & Hreader & _).
  exists k, fx.
  split; [exact Hk|]. split; [exact Hcalls|]. split; [exact Hsuccess | exact Hreader].
Defined.

Lemma full_queue_drops_input_witness :
  step 100 (Input ok_release)
    (run 100 (repeat (Input ok_press) 8) (laser_tag_app_start 100 ok_press))
  = run 100 (repeat (Input ok_press) 8) (laser_tag_app_start 100 ok_press).
Proof.
  apply (full_queue_drops_input 100 ltac:(lia) ok_release
           (run 100 (repeat (Input ok_press) 8) (laser_tag_app_start 100 ok_press))).
  - exists ok_press, (repeat (Input ok_press) 8). reflexivity.
  - reflexivity.
Defined.

Lemma null_controller_guards_witness :
  state (app (laser_tag_app_start 100 ok_press)) = LaserTagStateSplashScreen
  /\ laser_tag_app_fire (app (laser_tag_app_start 100 ok_press))
     = app (laser_tag_app_start 100 ok_press)
  /\ exists rest,
       calls (app (loop_iteration 100 quiet (laser_tag_app_start 100 ok_press)))
       = calls (app (laser_tag_app_start 100 ok_press))
         ++ CallUpdateBoardStatus true :: rest.
Proof.
  destruct (null_controller_guards 100 ltac:(lia) quiet
              (laser_tag_app_start 100 ok_press)
              (ex_intro _ ok_press (ex_intro _ [] eq_refl)) eq_refl eq_refl)
    as (Hsplash & Hfire & _ & _ & Hcall).
  split; [exact Hsplash|]. split; [exact Hfire | exact Hcall].
Defined.

(** ** The further theorems at concrete inputs *)

Lemma iteration_dequeues_oldest_witness :
  messages (event_queue (app (loop_iteration 100 quiet
    (mkLoop (with_event_queue (mkQueue 8 [ok_release; down_press])
               (in_game 50 5 false false)) up_press true))))
  = [down_press]
  /\ event (loop_iteration 100 quiet
       (mkLoop (with_event_queue (mkQueue 8 [ok_release; down_press])
                  (in_game 50 5 false false)) up_press true))
     = ok_release.
Proof.
  destruct (iteration_dequeues_oldest 100 ltac:(lia) quiet
              (mkLoop (with_event_queue (mkQueue 8 [ok_release; down_press])
                         (in_game 50 5 false false)) up_press true))
    as (Hm & _ & He).
  split; [exact Hm | exact He].
Defined.

Lemma input_callback_enqueues_witness :
  step 100 (Input up_press) (laser_tag_app_start 100 ok_press)
  = mkLoop (with_event_queue (mkQueue 8 [up_press])
              (app (laser_tag_app_start 100 ok_press)))
           ok_press true.
Proof.
  apply (proj2 (input_callback_enqueues 100 ltac:(lia) up_press
                  (laser_tag_app_start 100 ok_press)
                  (ex_intro _ ok_press (ex_intro _ [] eq_refl)))).
  simpl. lia.
Defined.

Lemma loop_exit_conditions_witness :
  running (loop_iteration 100 quiet
             (mkLoop (with_event_queue
                        (mkQueue 8 [mkInputEvent InputKeyBack InputTypePress])
                        (in_game 50 5 false false))
                     ok_press true))
  = false.
Proof.
  apply (proj2 (loop_exit_conditions 100 quiet
                  (mkLoop (with_event_queue
                             (mkQueue 8 [mkInputEvent InputKeyBack InputTypePress])
                             (in_game 50 5 false false))
                          ok_press true)
                  eq_refl)).
  exists (mkInputEvent InputKeyBack InputTypePress), [].
  split; [reflexivity|]. split; [reflexivity|].
  left. split; [reflexivity | simpl; discriminate].
Defined.

Lemma ok_on_splash_starts_game_witness :
  state (fst (handle_input 100 quiet ok_press (laser_tag_app_alloc 100) true))
  = LaserTagStateGame
  /\ game_state (fst (handle_input 100 quiet ok_press (laser_tag_app_alloc 100) true))
     = mkGameState 100 100 0
  /\ calls (fst (handle_input 100 quiet ok_press (laser_tag_app_alloc 100) true))
     = [CallInfraredAlloc].
Proof.
  destruct (ok_on_splash_starts_game 100 quiet ok_press (laser_tag_app_alloc 100)
              true eq_refl eq_refl eq_refl) as (Hs & Hg & Hc & _).
  split; [exact Hs|]. split; [exact Hg | exact Hc].
Defined.

Lemma restart_round_trip_witness :
  handle_input 100 quiet ok_press
    (fst (handle_input 100 quiet ok_press (game_over_screen 0 5) true))
    (snd (handle_input 100 quiet ok_press (game_over_screen 0 5) true))
  = (mkApp (furi_message_queue_alloc 8) (Some infrared_controller_alloc)
           (mkGameState 100 100 0) LaserTagStateGame true (mkReader false)
           [CallInfraredFree; CallInfraredAlloc],
     true).
Proof.
  destruct (restart_round_trip 100 quiet quiet ok_press ok_press
              (game_over_screen 0 5) true (mkInfraredController true false false)
              eq_refl eq_refl eq_refl eq_refl eq_refl eq_refl eq_refl)
    as (_ & _ & _ & H).
  exact H.
Defined.

Lemma tag_callback_never_lowers_witness :
  97 <= ammo (game_state (tag_callback 100 refill_tag 5 (in_game 100 97 false false)))
  <= 100.
Proof.
  apply (proj1 (tag_callback_never_lowers 100 refill_tag 5
                  (in_game 100 97 false false) ltac:(simpl; lia))).
Defined.

Lemma refill_tags_add_up_witness :
  tag_callback 100 [x13; x37; x00; xfd; x05] 5
    (tag_callback 100 [x13; x37; x00; xfd; x0a] 5 (in_game 100 80 false false))
  = tag_callback 100 [x13; x37; x00; xfd; x0a] 5
      (tag_callback 100 [x13; x37; x00; xfd; x05] 5 (in_game 100 80 false false)).
Proof.
  apply (proj2 (refill_tags_add_up 100 ltac:(lia) x00 x00 x0a x05
                  (in_game 100 80 false false) ltac:(simpl; lia))).
Defined.

Lemma full_ammo_scan_fails_witness :
  calls (fst (handle_input 100 tag_on_second_sleep up_press
                (in_game 100 100 false false) true))
  = scan_calls 30 sequence_error
  /\ ammo (game_state (fst (handle_input 100 tag_on_second_sleep up_press
                              (in_game 100 100 false false) true)))
     = 100.
Proof.
  apply (full_ammo_scan_fails 100 ltac:(lia) tag_on_second_sleep up_press
           (in_game 100 100 false false) true eq_refl eq_refl eq_refl eq_refl).
Defined.

Lemma reader_and_listener_calls_paired_witness :
  count_call CallReaderStart
    (calls (app (run 100 [Input ok_press; Tick quiet; Input up_press;
                          Tick tag_on_second_sleep]
                   (laser_tag_app_start 100 ok_press))))
  = count_call CallReaderStop
      (calls (app (run 100 [Input ok_press; Tick quiet; Input up_press;
                            Tick tag_on_second_sleep]
                     (laser_tag_app_start 100 ok_press)))).
Proof.
  apply (proj1 (reader_and_listener_calls_paired 100 _
                  (ex_intro _ ok_press (ex_intro _ _ eq_refl)))).
Defined.

Lemma controllers_balanced_witness :
  count_call CallInfraredAlloc
    (calls (app (run 100 ten_hits (laser_tag_app_start 100 ok_press))))
  = (count_call CallInfraredFree
       (calls (app (run 100 ten_hits (laser_tag_app_start 100 ok_press))))
     + live (app (run 100 ten_hits (laser_tag_app_start 100 ok_press))))%nat.
Proof.
  apply (proj1 (controllers_balanced 100 ltac:(lia) _
                  (ex_intro _ ok_press (ex_intro _ ten_hits eq_refl)))).
  reflexivity.
Defined.

Lemma devices_idle_between_iterations_witness :
  devices_idle
    (app (run 100 [Input ok_press; Tick quiet; Input up_press;
                   Tick tag_on_second_sleep]
            (laser_tag_app_start 100 ok_press))).
Proof.
  apply (devices_idle_between_iterations 100 _
           (ex_intro _ ok_press (ex_intro _ _ eq_refl))).
Defined.

Lemma game_over_iff_no_health_witness :
  health (game_state (app (run 100 ten_hits (laser_tag_app_start 100 ok_press))))
  = 0.
Proof.
  apply (proj1 (game_over_iff_no_health 100 ltac:(lia) _
                  (ex_intro _ ok_press (ex_intro _ ten_hits eq_refl)))).
  reflexivity.
Defined.

Lemma repeated_fire_witness :
  ammo (game_state (Nat.iter 7 laser_tag_app_fire (in_game 100 5 false false)))
  = 0
  /\ count_call CallInfraredSend
       (calls (Nat.iter 7 laser_tag_app_fire (in_game 100 5 false false)))
     = 7%nat.
Proof.
  destruct (repeated_fire 7 (in_game 100 5 false false)
              (mkInfraredController true false false)
              eq_refl eq_refl ltac:(simpl; lia)) as (Ha & Hs & _).
  split; [exact Ha | exact Hs].
Defined.

Lemma no_hit_no_damage_witness :
  health (game_state (app (loop_iteration 100 quiet
                             (mkLoop (in_game 30 5 false false) ok_release true))))
  = 30
  /\ state (app (loop_iteration 100 quiet
                   (mkLoop (in_game 30 5 false false) ok_release true)))
     = LaserTagStateGame.
Proof.
  apply (no_hit_no_damage 100 quiet
           (mkLoop (in_game 30 5 false false) ok_release true)
           (mkInfraredController true false false)
           eq_refl eq_refl eq_refl).
  simpl. lia.
Defined.

Lemma game_over_frame_complete_witness :
  exists ops,
    laser_tag_app_draw_callback 17 (game_over_screen 0 5) = Some ops
    /\ forallb is_tile ops = true
    /\ forall i j, 0 <= i < 16 -> 0 <= j < 8 ->
       tile_drawn ops i j = if on_rim i j then 1%nat else 0%nat.
Proof.
  apply (game_over_frame_complete 17 (game_over_screen 0 5) eq_refl).
  lia.
Defined.

Lemma health_in_steps_of_ten_witness :
  exists k, 0 <= k <= 10
    /\ health (game_state
                 (app (run 100 [Input ok_press; Tick quiet;
                                InfraredWorker true false; Tick quiet]
                         (laser_tag_app_start 100 ok_press))))
       = 10 * k.
Proof.
  apply (proj1 (health_in_steps_of_ten 100 ltac:(lia) _
                  (ex_intro _ ok_press (ex_intro _ _ eq_refl)))).
Defined.

